(** * Kernel output aggregation of the [CodeOutput] component

    A shallow embedding of the reduction and classification logic of
    [CodeOutput] (the React component that follows the REST helpers in
    [mage_ai/frontend/api/index.ts]) and of the declarations of
    [interfaces/KernelOutputType.ts].

    JavaScript strings are embedded as [string]: the component only
    concatenates them, joins them, tests them for emptiness and searches
    them for an ASCII token, and none of these depends on the alphabet.
    Where a builtin looks at characters outside ASCII, the escapes of a
    JSON text and the white space around a numeric string, the [string] is
    read as UTF-8. *)

From Stdlib Require Import ZArith Ascii String List Lia.
From stdpp Require Import base numbers list strings.
Import ListNotations.

Open Scope Z_scope.
Open Scope nat_scope.

(** ** Exceptions *)

(** A [TypeError] is a property read on [undefined] or [null], or a call of
    a method that is absent; a [SyntaxError] is what [JSON.parse] throws. *)
Inductive exn : Type := TypeError | SyntaxError.

Inductive result (A : Type) : Type :=
| Ok (a : A)
| Throw (e : exn).
Arguments Ok {A} a.
Arguments Throw {A} e.

Definition bind {A B} (c : result A) (k : A -> result B) : result B :=
  match c with
  | Ok a => k a
  | Throw e => Throw e
  end.

Notation "'let*' x ':=' c 'in' k" := (bind c (fun x => k))
  (at level 10, x name, c at level 100, k at level 200).

(** [b && c] of JavaScript, where evaluating [c] may throw: [c] is only
    evaluated when [b] holds. *)
Definition and_then (b : bool) (c : result bool) : result bool :=
  if b then c else Ok false.

(** [Array.prototype.reduce] with a callback that may throw. *)
Fixpoint reduce {A B} (f : B -> A -> result B) (l : list A) (acc : B)
  : result B :=
  match l with
  | [] => Ok acc
  | x :: l' => let* acc' := f acc x in reduce f l' acc'
  end.

(** [Array.prototype.map] with a callback that may throw and that receives
    the index. *)
Fixpoint mapi_from {A B} (f : A -> nat -> result B) (i : nat) (l : list A)
  : result (list B) :=
  match l with
  | [] => Ok []
  | x :: l' =>
      let* y := f x i in
      let* ys := mapi_from f (S i) l' in
      Ok (y :: ys)
  end.

Definition mapi {A B} (f : A -> nat -> result B) (l : list A)
  : result (list B) :=
  mapi_from f 0 l.

(** ** Strings *)

Definition newline : string := String "010"%char EmptyString.

(** [s.match(/needle/)] is truthy, for a pattern that is a literal. *)
Fixpoint includes (needle hay : string) : bool :=
  String.prefix needle hay ||
  match hay with
  | EmptyString => false
  | String _ hay' => includes needle hay'
  end.

Fixpoint drop_chars (n : nat) (s : string) : string :=
  match n, s with
  | O, _ => s
  | S _, EmptyString => EmptyString
  | S n', String _ s' => drop_chars n' s'
  end.

(** [s.replace(/needle/, '')]: the leftmost occurrence is removed, the
    pattern has no [g] flag. *)
Fixpoint remove_first (needle hay : string) : string :=
  if String.prefix needle hay then drop_chars (String.length needle) hay
  else match hay with
       | EmptyString => EmptyString
       | String c hay' => String c (remove_first needle hay')
       end.

(** ** interfaces/KernelOutputType.ts *)

Inductive ExecutionStateEnum : Type := BUSY | IDLE | QUEUED.

Inductive DataTypeEnum : Type := IMAGE_PNG | TABLE | TEXT | TEXT_PLAIN.

Inductive MsgType : Type := STATUS | STREAM.

#[global] Instance DataTypeEnum_eq_dec : EqDecision DataTypeEnum.
Proof. solve_decision. Defined.

Definition DATA_TYPE_TEXTLIKE : list DataTypeEnum := [TEXT; TEXT_PLAIN].

(** [data?: string | string[]] *)
Inductive payload : Type :=
| PString (s : string)
| PArray (l : list string).

Record KernelOutputType : Type := {
  data : option payload;
  error : option string;
  execution_state : ExecutionStateEnum;
  metadata : option (list (string * string));
  msg_id : string;
  msg_type : MsgType;
  type : DataTypeEnum;
  uuid : string;
}.

(** [{ ...m, data: d }] *)
Definition with_data (m : KernelOutputType) (d : option payload)
  : KernelOutputType :=
  {| data := d;
     error := error m;
     execution_state := execution_state m;
     metadata := metadata m;
     msg_id := msg_id m;
     msg_type := msg_type m;
     type := type m;
     uuid := uuid m |}.

(** ** The aggregation: [combinedMessages] *)

(** The token matched by [internalOutputRegex]. *)
Definition internal_output : string := "[__internal_output__]".

(** [DATA_TYPE_TEXTLIKE.includes(t)]; [None] is [undefined], the value of
    [last?.type] when the accumulator is empty. *)
Definition textlike_includes (t : option DataTypeEnum) : bool :=
  match t with
  | Some t' => bool_decide (t' ∈ DATA_TYPE_TEXTLIKE)
  | None => false
  end.

(** [(data) => (Array.isArray(data) ? data.join('\n') : data)] *)
Definition combineTextData (d : option payload) : option payload :=
  match d with
  | Some (PArray l) => Some (PString (String.concat newline l))
  | _ => d
  end.

(** The receiver of [.match] in [combineTextData(curr?.data).match(...)]:
    a string, or a [TypeError] when the payload is missing. *)
Definition combined_text (curr : KernelOutputType) : result string :=
  match combineTextData (data curr) with
  | Some (PString s) => Ok s
  | _ => Throw TypeError
  end.

(** [!combineTextData(curr?.data).match(internalOutputRegex)] *)
Definition not_internal_output (curr : KernelOutputType) : result bool :=
  let* s := combined_text curr in Ok (negb (includes internal_output s)).

(** [d + s] for a string [s]: the left operand is converted to a string,
    an array through [join(',')]. *)
Definition plus_string (d : option payload) (s : string) : string :=
  match d with
  | None => "undefined" +:+ s
  | Some (PString a) => a +:+ s
  | Some (PArray l) => String.concat "," l +:+ s
  end.

(** The callback of [messages.reduce].  The entries of [arr] are the objects
    the callback itself created with a spread, so that [last.data += ...]
    replaces the last element of the list ([combinedMessages_heap] below
    keeps the objects in a store and is shown to agree).  In the first
    branch the right operand of [+=] is the string on which the guard just
    called [.match]. *)
Definition reducer (arr : list KernelOutputType) (curr : KernelOutputType)
  : result (list KernelOutputType) :=
  let last := last arr in
  let* merge :=
    and_then (textlike_includes (type <$> last)
              && bool_decide (type <$> last = Some (type curr)))
             (not_internal_output curr) in
  if merge then
    let* s := combined_text curr in
    match last with
    | Some l =>
        Ok (removelast arr ++ [with_data l (Some (PString (plus_string (data l) s)))])
    | None => Throw TypeError
    end
  else
    let* fresh :=
      and_then (textlike_includes (Some (type curr)))
               (not_internal_output curr) in
    if fresh then Ok (arr ++ [with_data curr (combineTextData (data curr))])
    else Ok (arr ++ [curr]).

Definition combinedMessages (messages : list KernelOutputType)
  : result (list KernelOutputType) :=
  reduce reducer messages [].

(** ** JSON values and [JSON.parse] *)

(** A number is kept as the exact decimal [m * 10^e] of its literal. *)
#[local] Set Warnings "-register-all".
Inductive json : Type :=
| JNull
| JBool (b : bool)
| JNumber (m e : Z)
| JString (s : string)
| JArray (l : list json)
| JObject (members : list (string * json)).

Inductive token : Type :=
| TLBrace | TRBrace | TLBracket | TRBracket | TColon | TComma
| TString (s : string)
| TNumber (m e : Z)
| TTrue | TFalse | TNull.

Definition code (c : ascii) : N := N_of_ascii c.

Definition snoc_char (s : string) (c : ascii) : string :=
  s +:+ String c EmptyString.

Definition is_digit (c : ascii) : bool :=
  ((48 <=? code c) && (code c <=? 57))%N.

Definition is_letter (c : ascii) : bool :=
  (((65 <=? code c) && (code c <=? 90)) || ((97 <=? code c) && (code c <=? 122)))%N.

Definition hex_digit (c : ascii) : option N :=
  (if (48 <=? code c) && (code c <=? 57) then Some (code c - 48)
   else if (65 <=? code c) && (code c <=? 70) then Some (code c - 55)
   else if (97 <=? code c) && (code c <=? 102) then Some (code c - 87)
   else None)%N.

(** The characters of a number or of [true], [false], [null]. *)
Definition is_atom_char (c : ascii) : bool :=
  is_digit c || is_letter c
  || (code c =? 43)%N || (code c =? 45)%N || (code c =? 46)%N.

Fixpoint span_digits (s : string) : list Z * string :=
  match s with
  | String c s' =>
      if is_digit c then
        let '(ds, rest) := span_digits s' in
        (Z.of_N (code c - 48) :: ds, rest)
      else ([], s)
  | EmptyString => ([], s)
  end.

Definition digits_value (ds : list Z) : Z :=
  fold_left (fun acc d => 10 * acc + d)%Z ds 0%Z.

(** An exponent ([e] or [E], an optional sign, at least one digit) up to
    the end of the string, or nothing at all. *)
Definition exponent_part (s : string) : option Z :=
  match s with
  | EmptyString => Some 0%Z
  | String c s' =>
      if (code c =? 101)%N || (code c =? 69)%N then
        let '(neg, s'') :=
          match s' with
          | String d t =>
              if (code d =? 45)%N then (true, t)
              else if (code d =? 43)%N then (false, t)
              else (false, s')
          | EmptyString => (false, s')
          end in
        match span_digits s'' with
        | ((_ :: _) as ds, EmptyString) =>
            Some (if neg then - digits_value ds else digits_value ds)%Z
        | _ => None
        end
      else None
  end.

(** The JSON grammar of numbers: an optional minus sign, an integer part
    without a leading zero (or the single digit 0), an optional fraction
    of at least one digit, an optional exponent. *)
Definition number_of_lexeme (s : string) : option (Z * Z) :=
  let '(neg, s1) :=
    match s with
    | String c t => if (code c =? 45)%N then (true, t) else (false, s)
    | EmptyString => (false, s)
    end in
  let '(int, s2) := span_digits s1 in
  let int_ok :=
    match int with
    | [] => false
    | 0%Z :: _ :: _ => false
    | _ => true
    end in
  let '(frac, frac_ok, s3) :=
    match s2 with
    | String c t =>
        if (code c =? 46)%N then
          let '(fs, rest) := span_digits t in
          (fs, negb (bool_decide (fs = [])), rest)
        else ([], true, s2)
    | EmptyString => ([], true, s2)
    end in
  if int_ok && frac_ok then
    match exponent_part s3 with
    | Some x =>
        let m := digits_value (int ++ frac) in
        Some (if neg then (- m)%Z else m, (x - Z.of_nat (length frac))%Z)
    | None => None
    end
  else None.

Definition token_of_atom (s : string) : option token :=
  if bool_decide (s = "true") then Some TTrue
  else if bool_decide (s = "false") then Some TFalse
  else if bool_decide (s = "null") then Some TNull
  else match number_of_lexeme s with
       | Some (m, e) => Some (TNumber m e)
       | None => None
       end.

(** A [\uXXXX] escape denotes one UTF-16 code unit; it is kept as the
    bytes of its UTF-8 form. *)
Definition utf8_of_code_unit (n : N) : string :=
  (if n <? 128 then String (ascii_of_N n) EmptyString
   else if n <? 2048 then
     String (ascii_of_N (192 + n / 64))
       (String (ascii_of_N (128 + n mod 64)) EmptyString)
   else
     String (ascii_of_N (224 + n / 4096))
       (String (ascii_of_N (128 + (n / 64) mod 64))
          (String (ascii_of_N (128 + n mod 64)) EmptyString)))%N.

Inductive lex_state : Type :=
| LStart
| LString (acc : string)
| LEscape (acc : string)
| LUnicode (acc : string) (digits : list N)
| LAtom (acc : string).

(** Reading character [c] between two tokens. *)
Definition lex_start (c : ascii) : option (lex_state * list token) :=
  (if (code c =? 32) || (code c =? 9) || (code c =? 10) || (code c =? 13)
   then Some (LStart, [])
   else if code c =? 123 then Some (LStart, [TLBrace])
   else if code c =? 125 then Some (LStart, [TRBrace])
   else if code c =? 91 then Some (LStart, [TLBracket])
   else if code c =? 93 then Some (LStart, [TRBracket])
   else if code c =? 58 then Some (LStart, [TColon])
   else if code c =? 44 then Some (LStart, [TComma])
   else if code c =? 34 then Some (LString EmptyString, [])
   else if is_atom_char c then Some (LAtom (String c EmptyString), [])
   else None)%N.

Definition unescape (c : ascii) : option ascii :=
  (if (code c =? 34) || (code c =? 92) || (code c =? 47) then Some c
   else if code c =? 98 then Some (ascii_of_N 8)
   else if code c =? 102 then Some (ascii_of_N 12)
   else if code c =? 110 then Some (ascii_of_N 10)
   else if code c =? 114 then Some (ascii_of_N 13)
   else if code c =? 116 then Some (ascii_of_N 9)
   else None)%N.

(** The tokens of [s], in reverse order in [toks] while they are read. *)
Fixpoint lex (st : lex_state) (toks : list token) (s : string)
  : option (list token) :=
  match s with
  | EmptyString =>
      match st with
      | LStart => Some (rev toks)
      | LAtom acc =>
          match token_of_atom acc with
          | Some t => Some (rev (t :: toks))
          | None => None
          end
      | _ => None
      end
  | String c s' =>
      match st with
      | LStart =>
          match lex_start c with
          | Some (st', ts) => lex st' (ts ++ toks) s'
          | None => None
          end
      | LString acc =>
          if (code c =? 34)%N then lex LStart (TString acc :: toks) s'
          else if (code c =? 92)%N then lex (LEscape acc) toks s'
          else if (code c <? 32)%N then None
          else lex (LString (snoc_char acc c)) toks s'
      | LEscape acc =>
          if (code c =? 117)%N then lex (LUnicode acc []) toks s'
          else match unescape c with
               | Some d => lex (LString (snoc_char acc d)) toks s'
               | None => None
               end
      | LUnicode acc ds =>
          match hex_digit c with
          | Some d =>
              match ds with
              | [d1; d2; d3] =>
                  let n := (((d1 * 16 + d2) * 16 + d3) * 16 + d)%N in
                  lex (LString (acc +:+ utf8_of_code_unit n)) toks s'
              | _ => lex (LUnicode acc (ds ++ [d])) toks s'
              end
          | None => None
          end
      | LAtom acc =>
          if is_atom_char c then lex (LAtom (snoc_char acc c)) toks s'
          else match token_of_atom acc, lex_start c with
               | Some t, Some (st', ts) => lex st' (ts ++ t :: toks) s'
               | _, _ => None
               end
      end
  end.

(** The parser is a pushdown automaton over the tokens: [frame]s are the
    arrays and objects that are still open. *)
Inductive frame : Type :=
| FArray (elems : list json)
| FObject (members : list (string * json))
| FMember (members : list (string * json)) (key : string).

Inductive mode : Type :=
| MValue
| MArrayStart
| MObjectStart
| MKey
| MColon (key : string)
| MAfter (v : json).

Definition open_value (stack : list frame) (t : token)
  : option (list frame * mode) :=
  match t with
  | TString s => Some (stack, MAfter (JString s))
  | TNumber m e => Some (stack, MAfter (JNumber m e))
  | TTrue => Some (stack, MAfter (JBool true))
  | TFalse => Some (stack, MAfter (JBool false))
  | TNull => Some (stack, MAfter JNull)
  | TLBracket => Some (FArray [] :: stack, MArrayStart)
  | TLBrace => Some (FObject [] :: stack, MObjectStart)
  | _ => None
  end.

Definition parse_step (st : list frame * mode) (t : token)
  : option (list frame * mode) :=
  let '(stack, m) := st in
  match m, t, stack with
  | MValue, _, _ => open_value stack t
  | MArrayStart, TRBracket, FArray [] :: stack' =>
      Some (stack', MAfter (JArray []))
  | MArrayStart, _, _ => open_value stack t
  | MObjectStart, TRBrace, FObject [] :: stack' =>
      Some (stack', MAfter (JObject []))
  | MObjectStart, TString k, _ => Some (stack, MColon k)
  | MKey, TString k, _ => Some (stack, MColon k)
  | MColon k, TColon, FObject ms :: stack' =>
      Some (FMember ms k :: stack', MValue)
  | MAfter v, TComma, FArray es :: stack' =>
      Some (FArray (v :: es) :: stack', MValue)
  | MAfter v, TComma, FMember ms k :: stack' =>
      Some (FObject ((k, v) :: ms) :: stack', MKey)
  | MAfter v, TRBracket, FArray es :: stack' =>
      Some (stack', MAfter (JArray (rev (v :: es))))
  | MAfter v, TRBrace, FMember ms k :: stack' =>
      Some (stack', MAfter (JObject (rev ((k, v) :: ms))))
  | _, _, _ => None
  end.

Fixpoint parse_tokens (st : list frame * mode) (ts : list token)
  : option json :=
  match ts with
  | [] =>
      match st with
      | ([], MAfter v) => Some v
      | _ => None
      end
  | t :: ts' =>
      match parse_step st t with
      | Some st' => parse_tokens st' ts'
      | None => None
      end
  end.

(** [JSON.parse(s)]; [None] when it throws a [SyntaxError]. *)
Definition JSON_parse (s : string) : option json :=
  match lex LStart [] s with
  | Some ts => parse_tokens ([], MValue) ts
  | None => None
  end.

(** Text with an apostrophe for each quotation mark, to write JSON texts
    down legibly. *)
Fixpoint quoted (s : string) : string :=
  match s with
  | EmptyString => EmptyString
  | String c s' =>
      String (if (code c =? 39)%N then ascii_of_N 34 else c) (quoted s')
  end.

(** ** Coercions of parsed values *)

(** [o[k]] for an object [o] built by [JSON.parse]: the last member named
    [k] wins. *)
Fixpoint assoc_last (k : string) (ms : list (string * json)) : option json :=
  match ms with
  | [] => None
  | (k', v) :: ms' =>
      match assoc_last k ms' with
      | Some v' => Some v'
      | None => if bool_decide (k' = k) then Some v else None
      end
  end.

(** [v[k]] for a value [v] that is neither [undefined] nor [null] and a
    name [k] that is no index, not [length] and not inherited from a
    prototype: only objects have such a property. *)
Definition get_field (v : json) (k : string) : option json :=
  match v with
  | JObject ms => assoc_last k ms
  | _ => None
  end.

(** [x >= 1] for the number that the decimal [m * 10^e] is rounded to: the
    binary64 numbers next to 1 are [1 - 2^-53] and [1], and the decimals
    that round to 1 or above are those from [1 - 2^-54] on. *)
Definition decimal_ge_one (m e : Z) : bool :=
  (if m <=? 0 then false
   else if 0 <=? e then 1 <=? m * 10 ^ e
   else (2 ^ 54 - 1) * 10 ^ (- e) <=? m * 2 ^ 54)%Z.

(** The white space that the conversion of a string to a number strips:
    the ASCII characters TAB, LF, VT, FF, CR and SP, and, in the bytes of
    their UTF-8 form, U+00A0, U+1680, U+2000 to U+200A, U+2028, U+2029,
    U+202F, U+205F, U+3000 and U+FEFF. *)
Definition is_space (c : ascii) : bool :=
  ((9 <=? code c) && (code c <=? 13) || (code c =? 32))%N.

Definition is_space2 (c1 c2 : ascii) : bool :=
  ((code c1 =? 194) && (code c2 =? 160))%N.

Definition is_space3 (c1 c2 c3 : ascii) : bool :=
  ((code c1 =? 225) && (code c2 =? 154) && (code c3 =? 128)
   || (code c1 =? 226) && (code c2 =? 128)
      && ((128 <=? code c3) && (code c3 <=? 138)
          || (code c3 =? 168) || (code c3 =? 169) || (code c3 =? 175))
   || (code c1 =? 226) && (code c2 =? 129) && (code c3 =? 159)
   || (code c1 =? 227) && (code c2 =? 128) && (code c3 =? 128)
   || (code c1 =? 239) && (code c2 =? 187) && (code c3 =? 191))%N.

Fixpoint skip_spaces (s : string) : string :=
  match s with
  | String c1 s1 =>
      if is_space c1 then skip_spaces s1
      else
        match s1 with
        | String c2 s2 =>
            if is_space2 c1 c2 then skip_spaces s2
            else
              match s2 with
              | String c3 s3 =>
                  if is_space3 c1 c2 c3 then skip_spaces s3 else s
              | EmptyString => s
              end
        | EmptyString => s
        end
  | EmptyString => s
  end.

(** [s] without the white space at its end: what is left of [s] is cut
    where nothing but white space follows. *)
Fixpoint trim_end (s : string) : string :=
  match s with
  | String c s' =>
      if bool_decide (skip_spaces s = EmptyString) then EmptyString
      else String c (trim_end s')
  | EmptyString => EmptyString
  end.

Definition trim (s : string) : string := trim_end (skip_spaces s).

(** The digits of a [0x], [0o] or [0b] literal denote a number [>= 1]. *)
Fixpoint radix_ge_one (radix : N) (seen nonzero : bool) (s : string) : bool :=
  match s with
  | EmptyString => seen && nonzero
  | String c s' =>
      match hex_digit c with
      | Some d =>
          (d <? radix)%N
          && radix_ge_one radix true (nonzero || negb (d =? 0)%N) s'
      | None => false
      end
  end.

(** A decimal literal of a numeric string: digits, an optional fraction,
    an optional exponent, with a digit before or after the point. *)
Definition decimal_literal_ge_one (s : string) : bool :=
  let '(int, s1) := span_digits s in
  let '(frac, s2) :=
    match s1 with
    | String c t => if (code c =? 46)%N then span_digits t else ([], s1)
    | EmptyString => ([], s1)
    end in
  negb (bool_decide (int ++ frac = []))
  && match exponent_part s2 with
     | Some x =>
         decimal_ge_one (digits_value (int ++ frac))
           (x - Z.of_nat (length frac))
     | None => false
     end.

(** [s >= 1] for a string [s]: [s] is converted to a number, [NaN] when it
    is not a numeric literal between white space. *)
Definition string_ge_one (s : string) : bool :=
  match trim s with
  | EmptyString => false
  | String c0 (String c1 t) as s' =>
      if (code c0 =? 48)%N && ((code c1 =? 120)%N || (code c1 =? 88)%N)
      then radix_ge_one 16 false false t
      else if (code c0 =? 48)%N && ((code c1 =? 111)%N || (code c1 =? 79)%N)
      then radix_ge_one 8 false false t
      else if (code c0 =? 48)%N && ((code c1 =? 98)%N || (code c1 =? 66)%N)
      then radix_ge_one 2 false false t
      else if (code c0 =? 45)%N then false
      else
        let u := if (code c0 =? 43)%N then String c1 t else s' in
        bool_decide (u = "Infinity") || decimal_literal_ge_one u
  | s' => decimal_literal_ge_one s'
  end.

(** An object built by [JSON.parse] cannot be converted to a primitive when
    it has a member [toString], which hides [Object.prototype.toString] and
    is not callable; the same holds for an array that contains such an
    object, since its [toString] joins the strings of its elements. *)
Fixpoint no_primitive (v : json) : bool :=
  match v with
  | JObject ms => bool_decide (is_Some (assoc_last "toString" ms))
  | JArray l => existsb no_primitive l
  | _ => false
  end.

(** [ToNumber(ToString(v)) >= 1] for an element [v] of an array that has
    no other element: [null] gives the empty string, a boolean or an object
    a string that is no number, a nested array the string of its join, which
    has a comma as soon as there are two elements. *)
Fixpoint element_ge_one (v : json) : bool :=
  match v with
  | JNumber m e => decimal_ge_one m e
  | JString s => string_ge_one s
  | JArray [x] => element_ge_one x
  | _ => false
  end.

(** [v >= 1] for a parsed value [v]. *)
Definition ge_one (v : json) : result bool :=
  if no_primitive v then Throw TypeError
  else match v with
       | JNull => Ok false
       | JBool b => Ok b
       | JObject _ => Ok false
       | _ => Ok (element_ge_one v)
       end.

(** Modelled from the spec: [isJsonString] of [@utils/string], which is
    imported by the component and is not among the sources.  The spec has
    the fragment rendered as a table when parsing succeeds and skipped when
    parsing fails. *)
Definition isJsonString (s : string) : bool :=
  bool_decide (is_Some (JSON_parse s)).

Definition JSON_parse_or_throw (s : string) : result json :=
  match JSON_parse s with
  | Some v => Ok v
  | None => Throw SyntaxError
  end.

(** ** The component [CodeOutput] *)

(** Modelled from the spec: [StatusTypeEnum.EXECUTED] of
    [@interfaces/BlockType], which is not among the sources.  The spec
    names the status [executed]. *)
Definition EXECUTED : string := "executed".

(** What the component hands to React as [displayElement]: [false], a
    [DataTable], an [OutputRowStyle] around the ANSI text, or the image. *)
Inductive jsx : Type :=
| JsxFalse
| DataTable (columns index : option json) (rows : json)
| OutputRowStyle (first last : bool) (text : string)
| ImagePng (idx : nat) (base64 : string).

(** [<div key={`code-output-${idx}-${idxInner}`}>{displayElement}</div>];
    [displayElement] is [None] when the variable was left [undefined]. *)
Record div : Type := {
  key : nat * nat;
  displayElement : option jsx;
}.

Record CodeOutputProps : Type := {
  status : string;
  isInProgress : bool;
  messages : list KernelOutputType;
  runCount : Z;
  runEndTime : Z;
  runStartTime : Z;
}.

(** What the component returns: the children of [ContainerStyle] ([None]
    for an entry on which the callback returned nothing) and whether
    [ExtraInfoStyle] is shown. *)
Record rendered : Type := {
  children : list (option (list div));
  extraInfo : bool;
}.

Definition executedAndIdle (status : string) (isInProgress : bool)
    (runCount : Z) (numberOfMessages : nat) (runEndTime runStartTime : Z)
  : bool :=
  bool_decide (EXECUTED = status)
  || (negb isInProgress && (runCount =? 0)%Z && (1 <=? numberOfMessages))
  || (negb isInProgress && (1 <=? runCount)%Z
      && (runStartTime <=? runEndTime)%Z).

(** [rows.length >= 1] *)
Definition rows_length_ge_one (rows : option json) : result bool :=
  match rows with
  | None | Some JNull => Throw TypeError
  | Some (JArray l) => Ok (1 <=? length l)
  | Some (JString s) => Ok (negb (bool_decide (s = EmptyString)))
  | Some (JBool _) | Some (JNumber _ _) => Ok false
  | Some (JObject ms) =>
      match assoc_last "length" ms with
      | Some v => ge_one v
      | None => Ok false
      end
  end.

(** [({ columns, index, rows }) => rows.length >= 1 && <DataTable ... />];
    the argument is [None] when it is [undefined]. *)
Definition createDataTableElement (arg : option json) : result jsx :=
  match arg with
  | None | Some JNull => Throw TypeError
  | Some v =>
      let columns := get_field v "columns" in
      let index := get_field v "index" in
      let rows := get_field v "rows" in
      let* shown := rows_length_ge_one rows in
      match shown, rows with
      | true, Some r => Ok (DataTable columns index r)
      | _, _ => Ok JsxFalse
      end
  end.

(** The right-hand side of [const { data, type } = ...], which cannot be
    [null]. *)
Definition destructured (v : json) : result json :=
  match v with
  | JNull => Throw TypeError
  | _ => Ok v
  end.

(** [DataTypeEnum.TABLE === typeDisplay] *)
Definition is_table (typeDisplay : option json) : bool :=
  match typeDisplay with
  | Some (JString s) => bool_decide (s = "table")
  | _ => false
  end.

(** The callback of [dataArray.map]. *)
Definition renderData (numberOfMessages : nat) (dataType : DataTypeEnum)
    (idx dataArrayLength : nat) (data : string) (idxInner : nat)
  : result div :=
  let first := (idx =? 0) && (idxInner =? 0) in
  let last :=
    ((Z.of_nat idx =? Z.of_nat numberOfMessages - 1)
     && (Z.of_nat idxInner =? Z.of_nat dataArrayLength - 1))%Z in
  let* displayElement :=
    if includes internal_output data then
      let rawString := remove_first internal_output data in
      if isJsonString rawString then
        let* parsed := JSON_parse_or_throw rawString in
        let* parsed := destructured parsed in
        let dataDisplay := get_field parsed "data" in
        let typeDisplay := get_field parsed "type" in
        if is_table typeDisplay then
          let* e := createDataTableElement dataDisplay in Ok (Some e)
        else Ok None
      else Ok None
    else if bool_decide (dataType = TABLE) then
      let* arg :=
        if isJsonString data then JSON_parse_or_throw data
        else Ok (JString data) in
      let* e := createDataTableElement (Some arg) in Ok (Some e)
    else if textlike_includes (Some dataType) then
      Ok (Some (OutputRowStyle first last data))
    else if bool_decide (dataType = IMAGE_PNG) then
      Ok (Some (ImagePng idx data))
    else Ok None in
  Ok {| key := (idx, idxInner); displayElement := displayElement |}.

(** [!dataInit || dataInit?.length === 0] *)
Definition no_data (dataInit : option payload) : bool :=
  match dataInit with
  | None => true
  | Some (PString s) => bool_decide (s = EmptyString)
  | Some (PArray l) => bool_decide (length l = 0)
  end.

Definition truthy (d : string) : bool := negb (bool_decide (d = EmptyString)).

(** The callback of [combinedMessages?.map]. *)
Definition renderEntry (numberOfMessages : nat) (entry : KernelOutputType)
    (idx : nat) : result (option (list div)) :=
  let dataInit := data entry in
  let dataType := type entry in
  if no_data dataInit then Ok None
  else
    let dataArray :=
      match dataInit with
      | Some (PArray l) => l
      | Some (PString s) => [s]
      | None => []
      end in
    let dataArray := List.filter truthy dataArray in
    let dataArrayLength := length dataArray in
    let* divs :=
      mapi (renderData numberOfMessages dataType idx dataArrayLength)
        dataArray in
    Ok (Some divs).

Definition CodeOutput (props : CodeOutputProps) : result rendered :=
  let numberOfMessages := length (messages props) in
  let* primaryDataType :=
    match messages props with
    | m :: _ => Ok (type m)
    | [] => Throw TypeError
    end in
  let executedAndIdle :=
    executedAndIdle (status props) (isInProgress props) (runCount props)
      numberOfMessages (runEndTime props) (runStartTime props) in
  let* combinedMessages := combinedMessages (messages props) in
  let* children := mapi (renderEntry numberOfMessages) combinedMessages in
  Ok {| children := children; extraInfo := executedAndIdle |}.

(** ** Render instructions *)

(** The render instructions of the spec are the elements that React
    paints: a [displayElement] that is neither [undefined] nor [false]. *)
Definition instruction_of (d : div) : list jsx :=
  match displayElement d with
  | None | Some JsxFalse => []
  | Some e => [e]
  end.

Definition entry_instructions (c : option (list div)) : list jsx :=
  match c with
  | Some divs => concat (map instruction_of divs)
  | None => []
  end.

Definition instructions (r : rendered) : list jsx :=
  concat (map entry_instructions (children r)).

(** A message as the kernel sends it on a stream. *)
Definition message (t : DataTypeEnum) (d : option payload) : KernelOutputType :=
  {| data := d; error := None; execution_state := IDLE; metadata := None;
     msg_id := ""; msg_type := STREAM; type := t; uuid := "" |}.

Definition props_of (ms : list KernelOutputType) : CodeOutputProps :=
  {| status := "not_executed"; isInProgress := false; messages := ms;
     runCount := 1; runEndTime := 2; runStartTime := 1 |}.

(** ** The aggregation over a store of objects

    [last.data += ...] writes into an object.  Here the objects live in a
    store, [messages] and the accumulator hold references, the spread
    [{ ...curr }] allocates, and the assignment updates the store in place.
    The string arrays of the payloads are never written to, so that they
    stay values. *)

Abbreviation heap := (list KernelOutputType) (only parsing).
Abbreviation ref := nat (only parsing).

Definition reducer_heap (st : heap * list ref) (curr : ref)
  : result (heap * list ref) :=
  let '(h, arr) := st in
  match h !! curr with
  | None => Throw TypeError
  | Some c =>
      let last := last arr in
      let last_object := last ≫= (h !!.) in
      let* merge :=
        and_then (textlike_includes (type <$> last_object)
                  && bool_decide (type <$> last_object = Some (type c)))
                 (not_internal_output c) in
      if merge then
        let* s := combined_text c in
        match last, last_object with
        | Some a, Some l =>
            Ok (<[a := with_data l (Some (PString (plus_string (data l) s)))]> h,
                arr)
        | _, _ => Throw TypeError
        end
      else
        let* fresh :=
          and_then (textlike_includes (Some (type c)))
                   (not_internal_output c) in
        if fresh then
          Ok (h ++ [with_data c (combineTextData (data c))], arr ++ [length h])
        else Ok (h ++ [c], arr ++ [length h])
  end.

Definition combinedMessages_heap (h : heap) (messages : list ref)
  : result (heap * list ref) :=
  reduce reducer_heap messages (h, []).

(** The objects that the references of [arr] point to. *)
Definition contents (h : heap) (arr : list ref) : list (option KernelOutputType) :=
  map (h !!.) arr.

(** ** Vocabulary of the statements *)

(** The text of a payload, as [combineTextData] returns it. *)
Definition text_of (d : option payload) : string :=
  match combineTextData d with
  | Some (PString s) => s
  | _ => EmptyString
  end.

Definition tagged (m : KernelOutputType) : bool :=
  includes internal_output (text_of (data m)).

Definition textlike (m : KernelOutputType) : bool :=
  textlike_includes (Some (type m)).

(** Every text-like message has a payload. *)
Definition has_payload (m : KernelOutputType) : Prop :=
  textlike m = true -> is_Some (data m).

(** The entry that a message opens when it is not merged. *)
Definition first_entry (m : KernelOutputType) : KernelOutputType :=
  if textlike m && negb (tagged m) then with_data m (combineTextData (data m))
  else m.

(** A message is merged when the last entry is text-like, has the type of
    the message, and the message is not tagged. *)
Definition merges (arr : list KernelOutputType) (curr : KernelOutputType)
  : bool :=
  match last arr with
  | Some l =>
      textlike l && bool_decide (type l = type curr) && negb (tagged curr)
  | None => false
  end.

(** The texts of a run of messages, one after the other. *)
Definition texts (ms : list KernelOutputType) : string :=
  fold_right (fun m acc => text_of (data m) +:+ acc) EmptyString ms.

(** Entry [e] stands for the run [g] of adjacent messages: it is the entry
    of the first message of [g], followed by the texts of the others. *)
Definition represents (g : list KernelOutputType) (e : KernelOutputType)
  : Prop :=
  exists m rest,
    g = m :: rest
    /\ e = with_data m (data e)
    /\ Forall (fun m' => type m' = type m) rest
    /\ data e =
       match rest with
       | [] => data (first_entry m)
       | _ => Some (PString (plus_string (data (first_entry m)) (texts rest)))
       end.

(** The non-empty string fragments of an entry. *)
Definition fragments (e : KernelOutputType) : list string :=
  match data e with
  | Some (PArray l) => List.filter truthy l
  | Some (PString s) => List.filter truthy [s]
  | None => []
  end.

(** The instruction for fragment [i], [d], of an entry that is text-like or
    an image, at index [idx] among the entries of [n] messages. *)
Definition plain_instruction (n : nat) (e : KernelOutputType) (idx i : nat)
    (d : string) : jsx :=
  if textlike e then
    OutputRowStyle
      ((idx =? 0) && (i =? 0))
      ((Z.of_nat idx =? Z.of_nat n - 1)
       && (Z.of_nat i =? Z.of_nat (length (fragments e)) - 1))%Z
      d
  else ImagePng idx d.

(** ** Runs of messages, stated apart from the aggregation *)

(** The definitions below say what an entry holds for a run of messages in
    terms of the messages alone; they use neither [combineTextData] nor
    [plus_string] nor the search [includes], with which the aggregation is
    written, and are compared with it in [runs_in_order]. *)

Definition is_text (m : KernelOutputType) : Prop :=
  type m = TEXT \/ type m = TEXT_PLAIN.

(** The text holds the marker somewhere. *)
Definition marked (s : string) : Prop :=
  exists before after, s = before +:+ "[__internal_output__]" +:+ after.

(** The text of a payload: the strings of an array are its lines. *)
Definition payload_text (p : payload) : string :=
  match p with
  | PString s => s
  | PArray l => String.concat (String "010"%char EmptyString) l
  end.

(** A payload as the left operand of [+]: the strings of an array are
    separated by commas. *)
Definition payload_string (p : payload) : string :=
  match p with
  | PString s => s
  | PArray l => String.concat "," l
  end.

(** The texts of the messages of a run, in their order. *)
Fixpoint run_text (ms : list KernelOutputType) : string :=
  match ms with
  | [] => EmptyString
  | m :: ms' =>
      match data m with
      | Some p => payload_text p +:+ run_text ms'
      | None => run_text ms'
      end
  end.

(** Message [m'] continues the run that [m] opened: it has the type of
    [m], and a text without the marker. *)
Definition joins (m m' : KernelOutputType) : Prop :=
  type m' = type m
  /\ exists p, data m' = Some p /\ ~ marked (payload_text p).

(** Message [m] with the payload [d] in the place of its own. *)
Definition entry_of (m : KernelOutputType) (d : option payload)
  : KernelOutputType :=
  {| data := d;
     error := error m;
     execution_state := execution_state m;
     metadata := metadata m;
     msg_id := msg_id m;
     msg_type := msg_type m;
     type := type m;
     uuid := uuid m |}.

(** Entry [e] stands for the run [g]:
    - a message that is no text, or a text with the marker, alone, is kept
      as it came;
    - a text without the marker, with the texts that continue it, is one
      string, the texts in their order;
    - a text with the marker that is continued is one string too, the
      payload as [+] converts it and then the texts that continue it. *)
Inductive stands_for : list KernelOutputType -> KernelOutputType -> Prop :=
| kept m :
    (is_text m -> exists p, data m = Some p /\ marked (payload_text p)) ->
    stands_for [m] m
| text_run m p rest :
    is_text m ->
    data m = Some p ->
    ~ marked (payload_text p) ->
    Forall (joins m) rest ->
    stands_for (m :: rest)
      (entry_of m (Some (PString (payload_text p +:+ run_text rest))))
| marked_run m p m' rest :
    is_text m ->
    data m = Some p ->
    marked (payload_text p) ->
    Forall (joins m) (m' :: rest) ->
    stands_for (m :: m' :: rest)
      (entry_of m (Some (PString (payload_string p +:+ run_text (m' :: rest))))).

(** ** Sample runs *)

(** A tagged table as the component expects it, the tagged fragments of the
    spec, whose [data] is the array of rows itself, and what the first is
    rendered as. *)
Definition table_in_text : string :=
  quoted "[__internal_output__]{'data':{'columns':['x','y'],'index':[0],'rows':[['a','b']]},'type':'table'}".

Definition table_as_rows : string :=
  quoted "[__internal_output__]{'data':[['a','b']],'type':'table'}".

Definition text_as_rows : string :=
  quoted "[__internal_output__]{'data':[['a','b']],'type':'text'}".

Definition text_message (s : string) : KernelOutputType :=
  message TEXT (Some (PString s)).

Definition sample_heap : list KernelOutputType :=
  [text_message "a"; message TABLE None; text_message "b"].

(** The render instructions of a whole run. *)
Definition rendered_instructions (ms : list KernelOutputType)
  : result (list jsx) :=
  let* r := CodeOutput (props_of ms) in Ok (instructions r).

Definition the_table : jsx :=
  DataTable (Some (JArray [JString "x"; JString "y"]))
    (Some (JArray [JNumber 0 0]))
    (JArray [JArray [JString "a"; JString "b"]]).

(** ** Settled sequences of entries *)

(** Character [c] occurs in [s]. *)
Fixpoint occurs (c : ascii) (s : string) : bool :=
  match s with
  | EmptyString => false
  | String d s' => bool_decide (c = d) || occurs c s'
  end.

(** No entry of [out] could have been merged into the entry before it. *)
Fixpoint adjacent_ok (out : list KernelOutputType) : bool :=
  match out with
  | [] => true
  | e1 :: rest =>
      match rest with
      | [] => true
      | e2 :: _ => negb (merges [e1] e2)
      end && adjacent_ok rest
  end.

(** The payload of a text-like entry that is not tagged is a string. *)
Definition plain_is_string (e : KernelOutputType) : Prop :=
  textlike e = true -> tagged e = false -> combineTextData (data e) = data e.

Definition settled (out : list KernelOutputType) : Prop :=
  Forall has_payload out /\ Forall plain_is_string out
  /\ adjacent_ok out = true.

(** An array payload only comes with a text-like message that is not
    tagged. *)
Definition array_is_plain (m : KernelOutputType) : Prop :=
  forall l, data m = Some (PArray l) -> textlike m = true /\ tagged m = false.

(** A text-like entry holds a string. *)
Definition text_is_string (e : KernelOutputType) : Prop :=
  textlike e = true -> exists s, data e = Some (PString s).

(** The [div]s of an entry, none when the callback returned nothing, and
    those of a whole run. *)
Definition divs_of_child (c : option (list div)) : list div :=
  match c with
  | Some divs => divs
  | None => []
  end.

Definition divs_of (r : rendered) : list div :=
  concat (map divs_of_child (children r)).

(** ** What is shown below the output *)

(** The label of the tooltip: the time of the last run, which the
    component formats for the locale, or one of two fixed texts. *)
Inductive tooltip : Type :=
| LastRunAt (runStartTime : Z)
| ExecutedWithErrors
| ExecutedSuccessfully.

Inductive mark : Type := CheckMark | DangerCircle.

(** The content of [ExtraInfoStyle].  [elapsed] is
    [Number(runEndTime) - Number(runStartTime)], which the component shows
    divided by 1000 and followed by [s]; it is [None] when the text is not
    rendered. *)
Record extra_info : Type := {
  label : tooltip;
  elapsed : option Z;
  status_mark : mark;
}.

(** [{executedAndIdle && (<ExtraInfoStyle ...> ... </ExtraInfoStyle>)}] *)
Definition ExtraInfo (props : CodeOutputProps) (hasError : bool)
  : option extra_info :=
  if executedAndIdle (status props) (isInProgress props) (runCount props)
       (length (messages props)) (runEndTime props) (runStartTime props)
  then
    Some {| label :=
              if (1 <=? runCount props)%Z
                 && negb (runStartTime props =? 0)%Z
              then LastRunAt (runStartTime props)
              else if hasError then ExecutedWithErrors
                   else ExecutedSuccessfully;
            elapsed :=
              if (1 <=? runCount props)%Z
              then Some (runEndTime props - runStartTime props)%Z
              else None;
            status_mark := if hasError then DangerCircle else CheckMark |}
  else None.

(** ** The table of resources and the object [apis]

    The names of the resources are the constants that the module exports.
    Their values are pairwise distinct, and none is the name of a method
    of [apis] or of a property that an object inherits, so that the
    properties of an object are kept in two maps, one for its methods and
    one for its resources. *)
Module Api.

Inductive resource : Type :=
| ACTION_EXECUTE | ANALYSES | BLOCKS | COLUMNS | DOWNLOADS | FEATURES
| FILE_CONTENTS | FILES | FEATURE_SETS | FEATURE_SET_VERSIONS | KERNELS
| KERNEL_ACTION_INTERRUPT | KERNEL_ACTION_RESTART | OUTPUTS | PIPELINES
| STATUS | TRANSFORMER_ACTIONS | VARIABLES | VERSIONS.

#[global] Instance resource_eq_dec : EqDecision resource.
Proof. solve_decision. Defined.

(** The value of each constant. *)
Definition name (r : resource) : string :=
  match r with
  | ACTION_EXECUTE => "execute"
  | ANALYSES => "analyses"
  | BLOCKS => "blocks"
  | COLUMNS => "columns"
  | DOWNLOADS => "downloads"
  | FEATURES => "features"
  | FILE_CONTENTS => "file_contents"
  | FILES => "files"
  | FEATURE_SETS => "feature_sets"
  | FEATURE_SET_VERSIONS => "feature_set_versions"
  | KERNELS => "kernels"
  | KERNEL_ACTION_INTERRUPT => "interrupt"
  | KERNEL_ACTION_RESTART => "restart"
  | OUTPUTS => "outputs"
  | PIPELINES => "pipelines"
  | STATUS => "status"
  | TRANSFORMER_ACTIONS => "transformer_actions"
  | VARIABLES => "variables"
  | VERSIONS => "versions"
  end.

Definition all_resources : list resource :=
  [ACTION_EXECUTE; ANALYSES; BLOCKS; COLUMNS; DOWNLOADS; FEATURES;
   FILE_CONTENTS; FILES; FEATURE_SETS; FEATURE_SET_VERSIONS; KERNELS;
   KERNEL_ACTION_INTERRUPT; KERNEL_ACTION_RESTART; OUTPUTS; PIPELINES;
   STATUS; TRANSFORMER_ACTIONS; VARIABLES; VERSIONS].

Definition RESOURCES : list (list resource) :=
  [[ACTION_EXECUTE; PIPELINES];
   [BLOCKS];
   [BLOCKS; PIPELINES];
   [BLOCKS; PIPELINES; ANALYSES];
   [BLOCKS; PIPELINES; OUTPUTS];
   [COLUMNS; FEATURE_SETS];
   [DOWNLOADS; FEATURE_SETS];
   [FEATURE_SETS];
   [FILES];
   [FILE_CONTENTS];
   [KERNELS];
   [KERNEL_ACTION_INTERRUPT; KERNELS];
   [KERNEL_ACTION_RESTART; KERNELS];
   [PIPELINES];
   [STATUS];
   [VARIABLES; PIPELINES];
   [VERSIONS; FEATURE_SETS]].

(** The names of the methods; [list_] is the method [list]. *)
Inductive method : Type :=
| deleteAsync | detail | detailAsync | updateAsync | useUpdate
| useCreate | useCreateWithParentIdLater | useDelete | listAsync | list_
| create.

#[global] Instance method_eq_dec : EqDecision method.
Proof. solve_decision. Defined.

Definition method_names : list string :=
  ["deleteAsync"; "detail"; "detailAsync"; "updateAsync"; "useUpdate";
   "useCreate"; "useCreateWithParentIdLater"; "useDelete"; "listAsync";
   "list"; "create"].

(** The properties that every object inherits. *)
Definition inherited_names : list string :=
  ["constructor"; "hasOwnProperty"; "isPrototypeOf"; "propertyIsEnumerable";
   "toLocaleString"; "toString"; "valueOf"; "__proto__";
   "__defineGetter__"; "__defineSetter__"; "__lookupGetter__";
   "__lookupSetter__"].

(** A variable of a row: [None] when the row is too short and the
    variable is [undefined]. *)
Abbreviation var := (option resource) (only parsing).

(** The function literals of the loop, each with the variables of the row
    that it has captured.  What a function does when it is called is left
    to the helpers of [./utils/use], which are not among the sources. *)
Inductive fn : Type :=
| BaseDeleteAsync (resource : var)
| BaseDetail (resource swrOptions : var)
| BaseDetailAsync (resource : var)
| BaseUpdateAsync (resource : var)
| BaseUseUpdate (resource : var)
| GrandchildDetail (resource parentResource grandchildResource swrOptions : var)
| ParentUseCreate (resource parentResource : var)
| ParentUseCreateWithParentIdLater (resource parentResource : var)
| ParentUseUpdate (resource parentResource : var)
| ParentUseDelete (resource parentResource : var)
| ParentListAsync (resource parentResource : var)
| ParentList (resource parentResource swrOptions : var)
| ParentDetail (resource parentResource swrOptions : var)
| Create (resource : var)
| UseCreate (resource : var)
| UseDelete (resource : var)
| ListAsync (resource : var)
| List (resource swrOptions : var).

(** An object: its methods, and its properties named by a resource
    ([None] is the property [undefined], the name that an [undefined]
    variable is converted to). *)
Inductive obj : Type :=
| Obj (methods : method -> option fn) (children : var -> option obj).

Definition methods_of (o : obj) : method -> option fn :=
  match o with Obj ms _ => ms end.

Definition get (o : obj) (k : var) : option obj :=
  match o with Obj _ cs => cs k end.

(** [{}] *)
Definition empty : obj := Obj (fun _ => None) (fun _ => None).

(** [o[k] = c] *)
Definition set (o : obj) (k : var) (c : obj) : obj :=
  match o with
  | Obj ms cs => Obj ms (fun k' => if decide (k' = k) then Some c else cs k')
  end.

(** [o.m = f] *)
Definition set_method (o : obj) (m : method) (f : fn) : obj :=
  match o with
  | Obj ms cs => Obj (fun m' => if decide (m' = m) then Some f else ms m') cs
  end.

(** The object literal assigned to [apis[resource]]. *)
Definition base (resource swrOptions : var) : obj :=
  set_method
    (set_method
       (set_method
          (set_method
             (set_method empty deleteAsync (BaseDeleteAsync resource))
             detail (BaseDetail resource swrOptions))
          detailAsync (BaseDetailAsync resource))
       updateAsync (BaseUpdateAsync resource))
    useUpdate (BaseUseUpdate resource).

(** [apis[resource][parentResource][grandchildResource]] after the two
    assignments of the first branch. *)
Definition grandchild (resource parentResource grandchildResource swrOptions : var)
  : obj :=
  set_method empty detail
    (GrandchildDetail resource parentResource grandchildResource swrOptions).

(** [apis[resource][parentResource]] after the assignments of the second
    branch. *)
Definition parent (resource parentResource swrOptions : var) : obj :=
  set_method
    (set_method
       (set_method
          (set_method
             (set_method
                (set_method
                   (set_method empty useCreate
                      (ParentUseCreate resource parentResource))
                   useCreateWithParentIdLater
                   (ParentUseCreateWithParentIdLater resource parentResource))
                useUpdate (ParentUseUpdate resource parentResource))
             useDelete (ParentUseDelete resource parentResource))
          listAsync (ParentListAsync resource parentResource))
       list_ (ParentList resource parentResource swrOptions))
    detail (ParentDetail resource parentResource swrOptions).

(** [apis[resource]] after the assignments of the third branch. *)
Definition top (a : obj) (resource swrOptions : var) : obj :=
  set_method
    (set_method
       (set_method
          (set_method
             (set_method a create (Create resource))
             useCreate (UseCreate resource))
          useDelete (UseDelete resource))
       listAsync (ListAsync resource))
    list_ (List resource swrOptions).

(** The callback of [RESOURCES.forEach].  Writing to a property of
    [undefined] raises a [TypeError]. *)
Definition register (apis : obj) (row : list resource) : result obj :=
  let resource := row !! 0 in
  let parentResource := row !! 1 in
  let grandchildResource := row !! 2 in
  let swrOptions := row !! 3 in
  let apis :=
    match get apis resource with
    | None => set apis resource (base resource swrOptions)
    | Some _ => apis
    end in
  match get apis resource with
  | None => Throw TypeError
  | Some a =>
      match grandchildResource, parentResource with
      | Some _, _ =>
          match get a parentResource with
          | None => Throw TypeError
          | Some b =>
              Ok (set apis resource
                    (set a parentResource
                       (set b grandchildResource
                          (grandchild resource parentResource
                             grandchildResource swrOptions))))
          end
      | None, Some _ =>
          Ok (set apis resource
                (set a parentResource
                   (parent resource parentResource swrOptions)))
      | None, None => Ok (set apis resource (top a resource swrOptions))
      end
  end.

(** [apis] once the loop over [table] is over. *)
Definition build (table : list (list resource)) : result obj :=
  reduce register table empty.

(** The object that the module exports, when the loop over [RESOURCES]
    has not raised an exception. *)
Definition apis : obj :=
  match build RESOURCES with
  | Ok o => o
  | Throw _ => empty
  end.

(** [apis[r][m]], [apis[r][p][m]] and [apis[r][p][g][m]]. *)
Definition route1 (apis : obj) (r : var) (m : method) : option fn :=
  a ← get apis r; methods_of a m.

Definition route2 (apis : obj) (r p : var) (m : method) : option fn :=
  a ← get apis r; b ← get a p; methods_of b m.

Definition route3 (apis : obj) (r p g : var) (m : method) : option fn :=
  a ← get apis r; b ← get a p; c ← get b g; methods_of c m.

(** Row [row] names [r]. *)
Definition resource_is (r : var) (row : list resource) : bool :=
  bool_decide (row !! 0 = r).

(** Row [row] names [r] alone and gives it the methods of the third
    branch. *)
Definition is_top_row (r : var) (row : list resource) : bool :=
  bool_decide (row !! 0 = r) && bool_decide (row !! 1 = None).

(** Row [row] registers [p] under [r]. *)
Definition is_parent_row (r p : var) (row : list resource) : bool :=
  bool_decide (row !! 0 = r) && bool_decide (row !! 1 = p)
  && bool_decide (is_Some p) && bool_decide (row !! 2 = None).

(** Row [row] registers [g] under [p] under [r]. *)
Definition is_grandchild_row (r p g : var) (row : list resource) : bool :=
  bool_decide (row !! 0 = r) && bool_decide (row !! 1 = p)
  && bool_decide (row !! 2 = g) && bool_decide (is_Some g).

(** The rows that decide on [apis[r][p][g]]. *)
Definition relevant (r p g : var) (row : list resource) : bool :=
  is_parent_row r p row || is_grandchild_row r p g row.

(** Every row with a grandchild comes after a row for its parent. *)
Definition ordered (table : list (list resource)) : Prop :=
  forall pre row post,
    table = pre ++ row :: post ->
    is_Some (row !! 2) ->
    exists row', row' ∈ pre /\ is_parent_row (row !! 0) (row !! 1) row' = true.

(** The methods of [apis[r]], [apis[r][p]] and [apis[r][p][g]] as the
    table decides on them: the first row that names [r] creates
    [apis[r]], the last row that names [r] alone sets its other methods;
    the last row for [p] under [r] creates [apis[r][p]]; and
    [apis[r][p][g]] is there when the last of the rows for [p] under [r]
    or for [g] under [p] under [r] is one for [g]. *)
Definition expected1 (table : list (list resource)) (r : var) (m : method)
  : option fn :=
  match head (List.filter (resource_is r) table) with
  | Some first =>
      methods_of
        match last (List.filter (is_top_row r) table) with
        | Some row => top (base r (first !! 3)) r (row !! 3)
        | None => base r (first !! 3)
        end m
  | None => None
  end.

Definition expected2 (table : list (list resource)) (r p : var) (m : method)
  : option fn :=
  match last (List.filter (is_parent_row r p) table) with
  | Some row => methods_of (parent r p (row !! 3)) m
  | None => None
  end.

Definition expected3 (table : list (list resource)) (r p g : var) (m : method)
  : option fn :=
  match last (List.filter (relevant r p g) table) with
  | Some row =>
      if is_grandchild_row r p g row
      then methods_of (grandchild r p g (row !! 3)) m
      else None
  | None => None
  end.

(** The objects of [apis] are as the table decides. *)
Definition ok3 (table : list (list resource)) (r p : var) (b : obj) : Prop :=
  forall g,
    match get b g with
    | Some c =>
        exists row,
          last (List.filter (relevant r p g) table) = Some row
          /\ is_grandchild_row r p g row = true
          /\ forall m, methods_of c m
                       = methods_of (grandchild r p g (row !! 3)) m
    | None => forall m, expected3 table r p g m = None
    end.

Definition ok2 (table : list (list resource)) (r : var) (a : obj) : Prop :=
  forall p,
    match get a p with
    | Some b =>
        (forall m, methods_of b m = expected2 table r p m)
        /\ List.filter (is_parent_row r p) table <> []
        /\ ok3 table r p b
    | None => forall g, List.filter (relevant r p g) table = []
    end.

Definition ok1 (table : list (list resource)) (apis : obj) : Prop :=
  forall r,
    match get apis r with
    | Some a =>
        (forall m, methods_of a m = expected1 table r m)
        /\ List.filter (resource_is r) table <> []
        /\ ok2 table r a
    | None => List.filter (resource_is r) table = []
    end.

End Api.

(** * Properties *)

(** ** Strings and the monad *)

Lemma quoted_mark : quoted "{'a':1}" = "{" +:+ String "034"%char "a" +:+ String "034"%char ":1}".
Proof. reflexivity. Qed.

Lemma string_app_assoc (a b c : string) : (a +:+ b) +:+ c = a +:+ (b +:+ c).
Proof.
  induction a as [|x a IH]; [reflexivity|].
  change (String x ((a +:+ b) +:+ c) = String x (a +:+ (b +:+ c))).
  now rewrite IH.
Qed.

Lemma string_app_nil_r (a : string) : a +:+ EmptyString = a.
Proof.
  induction a as [|x a IH]; [reflexivity|].
  change (String x (a +:+ EmptyString) = String x a).
  now rewrite IH.
Qed.

Lemma plus_string_app d a b : plus_string d (a +:+ b) = plus_string d a +:+ b.
Proof.
  destruct d as [[s|l]|]; unfold plus_string; symmetry; apply string_app_assoc.
Qed.

Lemma texts_snoc ms m : texts (ms ++ [m]) = texts ms +:+ text_of (data m).
Proof.
  induction ms as [|x ms IH]; simpl.
  - now rewrite string_app_nil_r.
  - now rewrite IH, string_app_assoc.
Qed.

Lemma reduce_snoc {A B} (f : B -> A -> result B) l x acc :
  reduce f (l ++ [x]) acc = let* a := reduce f l acc in f a x.
Proof.
  revert acc. induction l as [|y l IH]; intros acc; simpl.
  - now destruct (f acc x).
  - destruct (f acc y); simpl; [apply IH | reflexivity].
Qed.

Lemma with_data_with_data m d d' : with_data (with_data m d) d' = with_data m d'.
Proof. reflexivity. Qed.

Lemma with_data_id m : with_data m (data m) = m.
Proof. now destruct m. Qed.

(** ** The callback of the reduction, case by case *)

Lemma combined_text_payload m :
  is_Some (data m) -> combined_text m = Ok (text_of (data m)).
Proof.
  intros [p Hp]. unfold combined_text, text_of. rewrite Hp.
  now destruct p.
Qed.

Lemma combined_text_missing m : data m = None -> combined_text m = Throw TypeError.
Proof. intros H. unfold combined_text. now rewrite H. Qed.

Lemma not_internal_output_payload m :
  is_Some (data m) -> not_internal_output m = Ok (negb (tagged m)).
Proof.
  intros H. unfold not_internal_output. now rewrite combined_text_payload.
Qed.

Ltac monad_step := cbn [bind and_then fmap option_fmap option_map andb negb].

Lemma reducer_merge arr l curr :
  has_payload curr ->
  merges (arr ++ [l]) curr = true ->
  reducer (arr ++ [l]) curr =
  Ok (arr ++ [with_data l (Some (PString (plus_string (data l) (text_of (data curr)))))]).
Proof.
  intros Hp. unfold merges, reducer. rewrite last_snoc. monad_step.
  intros H. apply andb_prop in H as [H Ht]. apply andb_prop in H as [Hl He].
  apply bool_decide_eq_true in He.
  assert (Hc : textlike curr = true) by (unfold textlike in *; now rewrite <- He).
  specialize (Hp Hc).
  unfold textlike in Hl. rewrite Hl, He.
  rewrite bool_decide_eq_true_2 by reflexivity. monad_step.
  rewrite not_internal_output_payload by assumption. rewrite Ht. monad_step.
  rewrite combined_text_payload by assumption. monad_step.
  now rewrite removelast_last.
Qed.

Lemma reducer_push arr curr :
  has_payload curr ->
  merges arr curr = false ->
  reducer arr curr = Ok (arr ++ [first_entry curr]).
Proof.
  intros Hp Hm. unfold reducer, first_entry.
  assert (Hfirst :
    and_then (textlike_includes (type <$> last arr)
              && bool_decide (type <$> last arr = Some (type curr)))
             (not_internal_output curr) = Ok false).
  { unfold merges in Hm. destruct (last arr) as [l|]; monad_step; [|reflexivity].
    destruct (textlike_includes (Some (type l))) eqn:Hl; monad_step; [|reflexivity].
    destruct (decide (type l = type curr)) as [He|Hne].
    - rewrite bool_decide_eq_true_2 by now rewrite He.
      monad_step.
      assert (Hc : textlike curr = true) by (unfold textlike; now rewrite <- He).
      rewrite not_internal_output_payload by auto.
      unfold textlike in Hm. rewrite Hl in Hm.
      rewrite bool_decide_eq_true_2 in Hm by assumption. cbn [andb] in Hm.
      now rewrite Hm.
    - rewrite bool_decide_eq_false_2 by congruence. reflexivity. }
  rewrite Hfirst. monad_step.
  fold (textlike curr).
  destruct (textlike curr) eqn:Hc; monad_step; [|reflexivity].
  rewrite not_internal_output_payload by auto. monad_step.
  now destruct (negb (tagged curr)).
Qed.

Lemma reducer_throws arr curr :
  textlike curr = true -> data curr = None -> reducer arr curr = Throw TypeError.
Proof.
  intros Hc Hd. unfold reducer.
  assert (Hn : not_internal_output curr = Throw TypeError).
  { unfold not_internal_output. now rewrite combined_text_missing. }
  destruct (textlike_includes (type <$> last arr)
            && bool_decide (type <$> last arr = Some (type curr))); monad_step.
  - now rewrite Hn.
  - unfold textlike in Hc. rewrite Hc. monad_step. now rewrite Hn.
Qed.

(** A tagged message is never appended to the entry before it: it opens an
    entry of its own, with its payload as it was received. *)
Lemma tagged_opens_entry arr curr :
  is_Some (data curr) ->
  tagged curr = true ->
  reducer arr curr = Ok (arr ++ [curr]).
Proof.
  intros Hp Ht.
  rewrite reducer_push.
  - unfold first_entry. rewrite Ht. now rewrite andb_false_r.
  - intros _. assumption.
  - unfold merges. destruct (last arr); [|reflexivity].
    rewrite Ht. apply andb_false_r.
Qed.

(** ** Runs of messages *)

Lemma combinedMessages_snoc ms m :
  combinedMessages (ms ++ [m]) =
  let* out := combinedMessages ms in reducer out m.
Proof. apply reduce_snoc. Qed.

Lemma represents_single m : represents [m] (first_entry m).
Proof.
  exists m, []. repeat split; [|constructor].
  unfold first_entry. destruct (textlike m && negb (tagged m)).
  - reflexivity.
  - symmetry. apply with_data_id.
Qed.

Lemma represents_snoc g l m :
  represents g l ->
  type l = type m ->
  represents (g ++ [m])
    (with_data l (Some (PString (plus_string (data l) (text_of (data m)))))).
Proof.
  intros (m0 & rest & -> & Hl & Hty & Hd) Ht.
  exists m0, (rest ++ [m]).
  assert (Ht0 : type l = type m0) by now rewrite Hl.
  repeat split.
  - rewrite Hl. reflexivity.
  - apply Forall_app. split; [assumption|].
    constructor; [congruence | constructor].
  - cbn [data with_data]. rewrite Hd.
    destruct rest as [|m1 rest].
    + cbn [app texts fold_right]. now rewrite string_app_nil_r.
    + change ((m1 :: rest) ++ [m]) with (m1 :: (rest ++ [m])).
      cbn [plus_string].
      change (m1 :: rest ++ [m]) with ((m1 :: rest) ++ [m]).
      now rewrite texts_snoc, plus_string_app.
Qed.

(** The aggregation returns exactly when every text-like message has a
    payload; its entries then stand for consecutive runs of the messages. *)
Lemma combinedMessages_runs ms :
  Forall has_payload ms ->
  exists out groups,
    combinedMessages ms = Ok out
    /\ concat groups = ms
    /\ Forall2 represents groups out.
Proof.
  induction ms as [|m ms IH] using rev_ind; intros Hall.
  - exists [], []. repeat split. constructor.
  - apply Forall_app in Hall as [Hms Hm].
    apply Forall_inv in Hm.
    destruct (IH Hms) as (out & groups & Hout & Hcat & Hrep).
    rewrite combinedMessages_snoc, Hout. cbn [bind].
    destruct (merges out m) eqn:Hmerge.
    + assert (Hlast : exists o l, out = o ++ [l]).
      { unfold merges in Hmerge. destruct (last out) as [l|] eqn:Hl; [|discriminate].
        apply last_Some in Hl as [o ->]. now exists o, l. }
      destruct Hlast as (o & l & ->).
      apply Forall2_app_inv_r in Hrep as (gs & gl & Hgs & Hgl & ->).
      apply Forall2_cons_inv_r in Hgl as (g & gl' & Hg & Hnil & ->).
      apply Forall2_nil_inv_r in Hnil as ->.
      exists (o ++ [with_data l (Some (PString (plus_string (data l) (text_of (data m)))))]),
             (gs ++ [g ++ [m]]).
      split; [now apply reducer_merge|]. split.
      * rewrite <- Hcat, !concat_app. cbn [concat]. now rewrite !app_nil_r, app_assoc.
      * apply Forall2_app; [assumption|].
        constructor; [|constructor].
        apply represents_snoc; [assumption|].
        unfold merges in Hmerge. rewrite last_snoc in Hmerge.
        apply andb_prop in Hmerge as [Hmerge _].
        apply andb_prop in Hmerge as [_ He].
        now apply bool_decide_eq_true in He.
    + exists (out ++ [first_entry m]), (groups ++ [[m]]).
      split; [now apply reducer_push|]. split.
      * rewrite concat_app, Hcat. reflexivity.
      * apply Forall2_app; [assumption|].
        constructor; [apply represents_single | constructor].
Qed.

Lemma combinedMessages_throws ms :
  Exists (fun m => textlike m = true /\ data m = None) ms ->
  combinedMessages ms = Throw TypeError.
Proof.
  induction ms as [|m ms IH] using rev_ind; intros Hex.
  - inversion Hex.
  - rewrite combinedMessages_snoc.
    apply Exists_app in Hex as [Hex|Hex].
    + now rewrite IH.
    + apply Exists_cons in Hex as [[Ht Hd]|Hex]; [|inversion Hex].
      destruct (combinedMessages ms) as [out|[]] eqn:Hout; cbn [bind].
      * now apply reducer_throws.
      * reflexivity.
      * exfalso. clear - Hout.
        revert Hout. unfold combinedMessages. generalize (@nil KernelOutputType).
        induction ms as [|x ms IH]; intros acc; cbn [reduce]; [discriminate|].
        destruct (reducer acc x) as [a|e] eqn:Hr; cbn [bind]; [apply IH|].
        intros [= ->]. revert Hr. unfold reducer, not_internal_output, combined_text, and_then.
        repeat (match goal with
                | |- context [if ?b then _ else _] => destruct b
                | |- context [match ?x with _ => _ end] => destruct x
                end; cbn [bind]); discriminate.
Qed.

(** ** Merge law *)

(** C1: two adjacent text-like messages of the same type whose combined
    texts are free of the marker aggregate to exactly one entry, whose text
    is the combined text of the first followed by that of the second;
    [combineTextData] joins an array with newlines and returns a string
    unchanged. *)
Theorem merge_law (m1 m2 : KernelOutputType) (t1 t2 : string) :
  textlike m1 = true ->
  type m1 = type m2 ->
  combineTextData (data m1) = Some (PString t1) ->
  combineTextData (data m2) = Some (PString t2) ->
  includes internal_output t1 = false ->
  includes internal_output t2 = false ->
  combinedMessages [m1; m2] = Ok [with_data m1 (Some (PString (t1 +:+ t2)))]
  /\ (forall l, combineTextData (Some (PArray l))
                = Some (PString (String.concat newline l)))
  /\ (forall s, combineTextData (Some (PString s)) = Some (PString s)).
Proof.
  intros Hlike Hty H1 H2 Hn1 Hn2. split; [|split; reflexivity].
  assert (Hp1 : is_Some (data m1)).
  { destruct (data m1); [eauto | discriminate]. }
  assert (Hp2 : is_Some (data m2)).
  { destruct (data m2); [eauto | discriminate]. }
  assert (Ht1 : text_of (data m1) = t1) by (unfold text_of; now rewrite H1).
  assert (Ht2 : text_of (data m2) = t2) by (unfold text_of; now rewrite H2).
  unfold combinedMessages. cbn [reduce].
  rewrite (reducer_push [] m1) by first [intros _; assumption | reflexivity].
  cbn [bind app].
  assert (Hfirst : first_entry m1 = with_data m1 (Some (PString t1))).
  { unfold first_entry, tagged. rewrite Hlike, Ht1, Hn1, H1. reflexivity. }
  rewrite Hfirst.
  change [with_data m1 (Some (PString t1))]
    with ([] ++ [with_data m1 (Some (PString t1))]).
  rewrite (reducer_merge [] (with_data m1 (Some (PString t1))) m2).
  - cbn [bind reduce app with_data data plus_string]. now rewrite Ht2.
  - intros _. assumption.
  - unfold merges. cbn [app last]. unfold textlike in *. cbn [with_data type].
    unfold tagged. rewrite Hlike, Ht2, Hn2.
    now rewrite bool_decide_eq_true_2.
Qed.

Lemma merge_law_witness :
  combinedMessages
    [message TEXT_PLAIN (Some (PArray ["a"; "b"]));
     message TEXT_PLAIN (Some (PString "c"))]
  = Ok [message TEXT_PLAIN (Some (PString ("a" +:+ newline +:+ "b" +:+ "c")))].
Proof.
  apply (proj1 (merge_law
                  (message TEXT_PLAIN (Some (PArray ["a"; "b"])))
                  (message TEXT_PLAIN (Some (PString "c")))
                  ("a" +:+ newline +:+ "b") "c"
                  eq_refl eq_refl eq_refl eq_refl eq_refl eq_refl)).
Defined.

(** ** Runs on which the component departs from the spec *)

(** C2: a tagged message is not kept apart from the message that follows
    it.  The text [hello] that arrives after a tagged table of the same
    type is appended to the entry of the table; the entry is then no JSON
    text any more, and neither the table nor [hello] is rendered, while
    each of the two messages alone is rendered. *)
Theorem tagged_entry_absorbs_text :
  combinedMessages [text_message table_in_text; text_message "hello"]
  = Ok [text_message (table_in_text +:+ "hello")]
  /\ rendered_instructions [text_message table_in_text; text_message "hello"]
     = Ok []
  /\ rendered_instructions [text_message table_in_text] = Ok [the_table]
  /\ rendered_instructions [text_message "hello"]
     = Ok [OutputRowStyle true true "hello"].
Proof. repeat split; vm_compute; reflexivity. Qed.

(** C3, as the component has it: the table of a tagged fragment is an
    object with the members [columns], [index] and [rows].  A fragment
    whose [data] is that object and whose [type] is [table] yields exactly
    one table, whose only row holds a and b; the fragment of the spec with
    [type] [text] yields no instruction; neither raises an error. *)
Theorem unwrap_law :
  rendered_instructions [text_message table_in_text] = Ok [the_table]
  /\ rendered_instructions [text_message text_as_rows] = Ok [].
Proof. split; vm_compute; reflexivity. Qed.

(** C3, as the spec has it: when [data] is the array of rows itself, the
    component reads [rows] off an array, finds [undefined], and raises a
    [TypeError] on its [length]. *)
Lemma unwrap_law_counterexample :
  JSON_parse (remove_first internal_output table_as_rows)
  = Some (JObject [("data", JArray [JArray [JString "a"; JString "b"]]);
                   ("type", JString "table")])
  /\ renderEntry 1 (text_message table_as_rows) 0 = Throw TypeError
  /\ CodeOutput (props_of [text_message table_as_rows]) = Throw TypeError.
Proof. repeat split; vm_compute; reflexivity. Qed.

(** C4: on the two stream messages [Hello ] and [World] the component
    renders one ANSI text, [Hello World], with [first] set and [last] not
    set: the entry has index 0, and [last] compares this index with the
    number of messages, 2, less one. *)
Theorem hello_world_flags :
  CodeOutput (props_of [text_message "Hello "; text_message "World"])
  = Ok {| children :=
            [Some [{| key := (0, 0);
                      displayElement :=
                        Some (OutputRowStyle true false "Hello World") |}]];
          extraInfo := true |}.
Proof. vm_compute. reflexivity. Qed.

(** C5: the decision is the disjunction of the claim: it is true exactly
    when the status is [executed], or the run is idle with a run count of
    zero and at least one message, or the run is idle with a run count of at
    least one and an end time that is not before the start time.  On the
    scenario of the claim, the status [executed], an idle run, a run count
    of zero and no message, the disjunction is true, but the component does
    not get to it: it raises a [TypeError] on [messages[0].type], the line
    before.  Whenever the component returns there is a message, and the
    decision is passed on. *)
Theorem finished_without_outputs (st : string) (ip : bool) (rc : Z) (n : nat)
    (re rs : Z) :
  (executedAndIdle st ip rc n re rs = true
   <-> (st = EXECUTED
        \/ (ip = false /\ rc = 0%Z /\ 1 <= n)
        \/ (ip = false /\ (1 <= rc)%Z /\ (rs <= re)%Z)))
  /\ executedAndIdle EXECUTED false 0 0 re rs = true
  /\ CodeOutput {| status := EXECUTED; isInProgress := false; messages := [];
                   runCount := 0; runEndTime := re; runStartTime := rs |}
     = Throw TypeError
  /\ (forall props,
        match CodeOutput props with
        | Ok r =>
            messages props <> []
            /\ extraInfo r =
               executedAndIdle (status props) (isInProgress props)
                 (runCount props) (length (messages props))
                 (runEndTime props) (runStartTime props)
        | Throw _ => True
        end).
Proof.
  split; [|split; [|split]].
  - unfold executedAndIdle.
    rewrite !orb_true_iff, !andb_true_iff, bool_decide_eq_true,
      negb_true_iff, Z.eqb_eq, !Z.leb_le, Nat.leb_le.
    intuition congruence.
  - reflexivity.
  - reflexivity.
  - intros props. unfold CodeOutput.
    destruct (messages props) as [|m ms]; cbn [bind]; [exact I|].
    destruct (combinedMessages (m :: ms)); cbn [bind]; [|exact I].
    destruct (mapi _ _); cbn [bind]; [|exact I].
    split; [discriminate | reflexivity].
Qed.

(** C8: on a run without messages the component raises a [TypeError],
    whatever its other properties are: it reads [messages[0].type] before
    anything else.  The aggregation itself returns the empty sequence. *)
Theorem no_messages_throws (st : string) (ip : bool) (rc re rs : Z) :
  CodeOutput {| status := st; isInProgress := ip; messages := [];
                runCount := rc; runEndTime := re; runStartTime := rs |}
  = Throw TypeError
  /\ combinedMessages [] = Ok [].
Proof. split; reflexivity. Qed.

(** ** The store *)

Lemma contents_alloc (h0 out : list KernelOutputType) :
  contents (h0 ++ out) (seq (length h0) (length out)) = map Some out.
Proof.
  revert h0. induction out as [|x out IH]; intros h0; [reflexivity|].
  cbn [length seq contents map].
  rewrite list_lookup_middle by reflexivity. f_equal.
  specialize (IH (h0 ++ [x])).
  rewrite <- app_assoc, length_app in IH. cbn [app length] in IH.
  rewrite Nat.add_1_r in IH. exact IH.
Qed.

Lemma last_alloc (h0 out : list KernelOutputType) :
  last (seq (length h0) (length out)) ≫= ((h0 ++ out) !!.) = last out.
Proof.
  destruct out as [|l o _] using rev_ind; [reflexivity|].
  rewrite length_app. cbn [length]. rewrite Nat.add_1_r, seq_S, !last_snoc.
  cbn [mbind option_bind]. rewrite app_assoc.
  apply list_lookup_middle. now rewrite length_app.
Qed.

(** One step of the reduction over the store does what [reducer] does on
    the values: the entries are the objects allocated after [h0], in the
    order of their allocation, and [h0] is left as it was. *)
Lemma reducer_heap_sim (h0 out : list KernelOutputType) (r : ref) c :
  h0 !! r = Some c ->
  reducer_heap (h0 ++ out, seq (length h0) (length out)) r =
  match reducer out c with
  | Ok out' => Ok (h0 ++ out', seq (length h0) (length out'))
  | Throw e => Throw e
  end.
Proof.
  intros Hr. unfold reducer_heap, reducer.
  rewrite (lookup_app_l_Some _ _ _ _ Hr), last_alloc.
  destruct (and_then _ (not_internal_output c)) as [[|]|e]; cbn [bind];
    [| |reflexivity].
  - destruct (combined_text c) as [s|e]; cbn [bind]; [|reflexivity].
    destruct out as [|l o _] using rev_ind; [reflexivity|].
    rewrite length_app. cbn [length].
    rewrite Nat.add_1_r, seq_S, !last_snoc.
    cbn [mbind option_bind].
    assert (Hl : (h0 ++ o ++ [l]) !! (length h0 + length o) = Some l).
    { rewrite app_assoc. apply list_lookup_middle. now rewrite length_app. }
    rewrite Hl, removelast_last. f_equal. f_equal.
    + rewrite insert_app_r.
      replace (length o) with (length o + 0) at 1 by lia.
      now rewrite insert_app_r.
    + rewrite length_app. cbn [length]. now rewrite Nat.add_1_r, seq_S.
  - destruct (and_then _ (not_internal_output c)) as [[|]|e]; cbn [bind];
      [| |reflexivity];
      rewrite <- app_assoc, !length_app; cbn [length];
      now rewrite Nat.add_1_r, seq_S.
Qed.

Lemma reduce_heap_sim (h0 : list KernelOutputType) (messages : list ref) cs :
  Forall2 (fun r c => h0 !! r = Some c) messages cs ->
  forall out,
    reduce reducer_heap messages (h0 ++ out, seq (length h0) (length out)) =
    match reduce reducer cs out with
    | Ok out' => Ok (h0 ++ out', seq (length h0) (length out'))
    | Throw e => Throw e
    end.
Proof.
  induction 1 as [|r c messages cs Hr _ IH]; intros out; [reflexivity|].
  cbn [reduce]. rewrite (reducer_heap_sim _ _ _ _ Hr).
  destruct (reducer out c) as [out'|e]; cbn [bind]; [apply IH | reflexivity].
Qed.

Lemma combinedMessages_heap_sim (h0 : list KernelOutputType) messages cs :
  Forall2 (fun r c => h0 !! r = Some c) messages cs ->
  combinedMessages_heap h0 messages =
  match combinedMessages cs with
  | Ok out => Ok (h0 ++ out, seq (length h0) (length out))
  | Throw e => Throw e
  end.
Proof.
  intros H. unfold combinedMessages_heap, combinedMessages.
  rewrite <- (reduce_heap_sim h0 messages cs H []).
  cbn [length seq]. now rewrite app_nil_r.
Qed.

Lemma contents_app_l (h h' : list KernelOutputType) (arr : list nat) :
  Forall (fun r => r < length h) arr ->
  contents (h ++ h') arr = contents h arr.
Proof.
  induction 1 as [|r arr Hr _ IH]; [reflexivity|].
  cbn [contents map]. rewrite lookup_app_l by assumption.
  f_equal. exact IH.
Qed.

Lemma payload_dec (cs : list KernelOutputType) :
  Forall has_payload cs
  \/ Exists (fun m => textlike m = true /\ data m = None) cs.
Proof.
  induction cs as [|c cs [IH|IH]].
  - left. constructor.
  - destruct (textlike c) eqn:Ht; [destruct (data c) as [p|] eqn:Hd|].
    + left. constructor; [|assumption]. intros _. rewrite Hd. eauto.
    + right. now left.
    + left. constructor; [|assumption]. intros H. congruence.
  - right. now right.
Qed.

Lemma dereference (h0 : list KernelOutputType) (messages : list nat) :
  Forall (fun r => is_Some (h0 !! r)) messages ->
  exists cs, Forall2 (fun r c => h0 !! r = Some c) messages cs.
Proof.
  induction 1 as [|r messages [c Hc] _ [cs IH]].
  - exists []. constructor.
  - exists (c :: cs). now constructor.
Qed.

(** ** Running the aggregation again *)

(** C6: the aggregation writes to no object that existed before it ran, so
    that no message is changed, and running it again on the same messages
    returns entries with the same contents, while those of the first run
    stay as they were.  It fails to return only when a text-like message
    has no payload. *)
Theorem aggregate_rerun (h0 : heap) (messages : list ref) :
  Forall (fun r => is_Some (h0 !! r)) messages ->
  match combinedMessages_heap h0 messages with
  | Ok (h1, arr1) =>
      (forall r, r < length h0 -> h1 !! r = h0 !! r)
      /\ exists h2 arr2,
           combinedMessages_heap h1 messages = Ok (h2, arr2)
           /\ contents h2 arr2 = contents h1 arr1
           /\ contents h2 arr1 = contents h1 arr1
  | Throw _ =>
      Exists (fun r => exists c, h0 !! r = Some c
                                 /\ textlike c = true /\ data c = None)
        messages
  end.
Proof.
  intros Hvalid. destruct (dereference _ _ Hvalid) as [cs Hcs].
  rewrite (combinedMessages_heap_sim _ _ _ Hcs).
  destruct (payload_dec cs) as [Hall|Hex].
  - destruct (combinedMessages_runs cs Hall) as (out & _ & Hout & _).
    rewrite Hout. split.
    + intros r Hr. now apply lookup_app_l.
    + assert (Hcs' : Forall2 (fun r c => (h0 ++ out) !! r = Some c) messages cs).
      { eapply Forall2_impl; [exact Hcs|].
        intros r c Hr. now apply lookup_app_l_Some. }
      exists ((h0 ++ out) ++ out), (seq (length (h0 ++ out)) (length out)).
      split; [|split].
      * now rewrite (combinedMessages_heap_sim _ _ _ Hcs'), Hout.
      * now rewrite !contents_alloc.
      * apply contents_app_l. apply Forall_forall.
        intros r Hr. apply elem_of_seq in Hr. rewrite length_app. lia.
  - rewrite (combinedMessages_throws cs Hex).
    clear Hvalid. induction Hcs as [|r c messages cs Hr _ IH].
    + inversion Hex.
    + apply Exists_cons in Hex as [[Ht Hd]|Hex].
      * left. now exists c.
      * right. now apply IH.
Qed.

Lemma aggregate_rerun_witness :
  match combinedMessages_heap sample_heap [0; 2; 1] with
  | Ok (h1, arr1) =>
      (forall r, r < length sample_heap -> h1 !! r = sample_heap !! r)
      /\ exists h2 arr2,
           combinedMessages_heap h1 [0; 2; 1] = Ok (h2, arr2)
           /\ contents h2 arr2 = contents h1 arr1
           /\ contents h2 arr1 = contents h1 arr1
  | Throw _ =>
      Exists (fun r => exists c, sample_heap !! r = Some c
                                 /\ textlike c = true /\ data c = None)
        [0; 2; 1]
  end.
Proof.
  apply aggregate_rerun.
  repeat constructor; eexists; reflexivity.
Defined.

(** ** Order of the entries *)

(** C9: a text message that comes without a payload makes the
    aggregation raise a [TypeError], the marker being looked for in
    [undefined]: the component then renders nothing, and the texts [a] and
    [b] that came with it are lost.  The same run without that message
    yields the entry [ab]; an image without a payload is copied, and the
    rendering of an entry skips one without a payload. *)
Theorem missing_payload_drops_run :
  combinedMessages [text_message "a"; message TEXT None; text_message "b"]
  = Throw TypeError
  /\ CodeOutput
       (props_of [text_message "a"; message TEXT None; text_message "b"])
     = Throw TypeError
  /\ combinedMessages [text_message "a"; text_message "b"]
     = Ok [text_message "ab"]
  /\ combinedMessages
       [text_message "a"; message IMAGE_PNG None; text_message "b"]
     = Ok [text_message "a"; message IMAGE_PNG None; text_message "b"]
  /\ renderEntry 3 (message TEXT None) 1 = Ok None.
Proof. repeat split; vm_compute; reflexivity. Qed.

(** ** Tables *)

Lemma createDataTableElement_table arg c ix r :
  createDataTableElement arg = Ok (DataTable c ix r) ->
  rows_length_ge_one (Some r) = Ok true.
Proof.
  unfold createDataTableElement.
  destruct arg as [v|]; [|discriminate].
  destruct (rows_length_ge_one (get_field v "rows")) as [[|]|e] eqn:Hrows;
    destruct (get_field v "rows") as [r'|] eqn:Hr;
    destruct v; cbn [bind]; try discriminate;
    intros [= <- <- <-]; assumption.
Qed.

Lemma createDataTableElement_no_rows v :
  get_field v "rows" = Some (JArray []) ->
  createDataTableElement (Some v) = Ok JsxFalse.
Proof.
  intros H. unfold createDataTableElement. rewrite H.
  destruct v; try discriminate H. reflexivity.
Qed.

(** Case analysis on the innermost computation that may throw, or on the
    condition of a branch. *)
Ltac case_result :=
  match goal with
  | |- context [bind ?c _] =>
      lazymatch c with
      | context [bind _ _] => fail
      | context [if _ then _ else _] => fail
      | _ => destruct c eqn:?; cbn [bind]
      end
  | |- context [if ?b then _ else _] =>
      lazymatch b with
      | context [bind _ _] => fail
      | _ => destruct b eqn:?; cbn [bind]
      end
  end.

Lemma renderData_table n t idx len data i d c ix r :
  renderData n t idx len data i = Ok d ->
  displayElement d = Some (DataTable c ix r) ->
  rows_length_ge_one (Some r) = Ok true.
Proof.
  unfold renderData.
  repeat case_result; intros [= <-]; cbn [displayElement];
    intros [= Hd]; try discriminate;
    subst; eapply createDataTableElement_table; eassumption.
Qed.

Lemma renderData_tagged_no_rows n t idx len data i v dv :
  includes internal_output data = true ->
  JSON_parse (remove_first internal_output data) = Some v ->
  is_table (get_field v "type") = true ->
  get_field v "data" = Some dv ->
  get_field dv "rows" = Some (JArray []) ->
  renderData n t idx len data i
  = Ok {| key := (idx, i); displayElement := Some JsxFalse |}.
Proof.
  intros Hin Hparse Htable Hdata Hrows.
  unfold renderData, isJsonString, JSON_parse_or_throw.
  rewrite Hin, Hparse.
  rewrite bool_decide_eq_true_2 by eauto. cbn [bind].
  assert (Hv : destructured v = Ok v) by (destruct v; [discriminate Hdata | reflexivity..]).
  rewrite Hv. cbn [bind]. rewrite Htable, Hdata.
  now rewrite (createDataTableElement_no_rows dv Hrows).
Qed.

Lemma renderData_table_no_rows n idx len data i v :
  includes internal_output data = false ->
  JSON_parse data = Some v ->
  get_field v "rows" = Some (JArray []) ->
  renderData n TABLE idx len data i
  = Ok {| key := (idx, i); displayElement := Some JsxFalse |}.
Proof.
  intros Hin Hparse Hrows.
  unfold renderData, isJsonString, JSON_parse_or_throw.
  rewrite Hin, Hparse.
  rewrite bool_decide_eq_true_2 by reflexivity.
  rewrite bool_decide_eq_true_2 by eauto. cbn [bind].
  now rewrite (createDataTableElement_no_rows v Hrows).
Qed.

(** The flags of an ANSI text: [first] marks fragment 0 of entry 0, [last]
    marks the final fragment of the entry whose index is the number of
    messages less one. *)
Lemma createDataTableElement_shape arg e :
  createDataTableElement arg = Ok e ->
  match e with
  | JsxFalse | DataTable _ _ _ => True
  | _ => False
  end.
Proof.
  unfold createDataTableElement.
  destruct arg as [v|]; [|discriminate].
  destruct (rows_length_ge_one (get_field v "rows")) as [[|]|];
    destruct (get_field v "rows"); destruct v; cbn [bind];
    try discriminate; intros [= <-]; exact I.
Qed.

Lemma renderData_flags n t idx len data i d first last text :
  renderData n t idx len data i = Ok d ->
  displayElement d = Some (OutputRowStyle first last text) ->
  first = ((idx =? 0) && (i =? 0))
  /\ last = ((Z.of_nat idx =? Z.of_nat n - 1)
             && (Z.of_nat i =? Z.of_nat len - 1))%Z
  /\ text = data.
Proof.
  unfold renderData.
  repeat case_result; intros [= <-]; cbn [displayElement];
    intros [= Hd]; try discriminate; subst.
  all: try match goal with
           | H : createDataTableElement _ = Ok _ |- _ =>
               apply createDataTableElement_shape in H; contradiction
           end.
  all: match goal with
       | H : Ok _ = Ok _ |- _ => injection H as <- <- <-
       | _ => idtac
       end.
  all: repeat split; congruence.
Qed.

(** C10: a fragment is rendered as a table only when [rows.length >= 1]
    holds of the rows that the table is given, so that a list of rows has
    at least one row; a fragment whose rows are the empty list yields no
    instruction, on the path of the tagged fragments and on the path of
    the entries of type [table]. *)
Theorem table_needs_rows :
  (forall n t idx len data i d c ix r,
      renderData n t idx len data i = Ok d ->
      displayElement d = Some (DataTable c ix r) ->
      rows_length_ge_one (Some r) = Ok true
      /\ forall l, r = JArray l -> 1 <= length l)
  /\ (forall n t idx len data i v dv,
        includes internal_output data = true ->
        JSON_parse (remove_first internal_output data) = Some v ->
        is_table (get_field v "type") = true ->
        get_field v "data" = Some dv ->
        get_field dv "rows" = Some (JArray []) ->
        exists d, renderData n t idx len data i = Ok d
                  /\ instruction_of d = [])
  /\ (forall n idx len data i v,
        includes internal_output data = false ->
        JSON_parse data = Some v ->
        get_field v "rows" = Some (JArray []) ->
        exists d, renderData n TABLE idx len data i = Ok d
                  /\ instruction_of d = []).
Proof.
  split; [|split].
  - intros n t idx len data i d c ix r Hd Hdisplay.
    pose proof (renderData_table _ _ _ _ _ _ _ _ _ _ Hd Hdisplay) as Hrows.
    split; [assumption|].
    intros l ->. cbn [rows_length_ge_one] in Hrows.
    injection Hrows as Hrows. now apply Nat.leb_le.
  - intros n t idx len data i v dv H1 H2 H3 H4 H5.
    eexists. split; [eapply renderData_tagged_no_rows; eassumption | reflexivity].
  - intros n idx len data i v H1 H2 H3.
    eexists. split; [eapply renderData_table_no_rows; eassumption | reflexivity].
Qed.

Lemma table_needs_rows_witness :
  (rows_length_ge_one (Some (JArray [JArray [JString "a"; JString "b"]]))
   = Ok true
   /\ forall l, JArray [JArray [JString "a"; JString "b"]] = JArray l ->
                1 <= length l)
  /\ (exists d,
        renderData 1 TEXT 0 1
          (quoted "[__internal_output__]{'data':{'rows':[]},'type':'table'}") 0
        = Ok d
        /\ instruction_of d = [])
  /\ (exists d,
        renderData 1 TABLE 0 1 (quoted "{'columns':['x'],'rows':[]}") 0 = Ok d
        /\ instruction_of d = []).
Proof.
  split; [|split].
  - apply (proj1 table_needs_rows 1 TEXT 0 1 table_in_text 0
             {| key := (0, 0); displayElement := Some the_table |}
             (Some (JArray [JString "x"; JString "y"]))
             (Some (JArray [JNumber 0 0]))
             (JArray [JArray [JString "a"; JString "b"]]));
      vm_compute; reflexivity.
  - eapply (proj1 (proj2 table_needs_rows)); vm_compute; reflexivity.
  - eapply (proj2 (proj2 table_needs_rows)); vm_compute; reflexivity.
Defined.

(** ** Fragments *)

Lemma mapi_from_inv {A B C} (f : A -> nat -> result B) (g : B -> C)
    (h : nat -> A -> C) :
  (forall x j y, f x j = Ok y -> g y = h j x) ->
  forall l i ys,
    mapi_from f i l = Ok ys -> map g ys = imap (fun j => h (i + j)) l.
Proof.
  intros Hf. induction l as [|x l IH]; intros i ys; cbn [mapi_from].
  - intros [= <-]. reflexivity.
  - destruct (f x i) as [y|e] eqn:Hy; cbn [bind]; [|discriminate].
    destruct (mapi_from f (S i) l) as [ys'|e] eqn:Hys; cbn [bind]; [|discriminate].
    intros [= <-]. cbn [map imap].
    rewrite (Hf _ _ _ Hy), (IH _ _ Hys), Nat.add_0_r. f_equal.
    apply imap_ext. intros j a _. cbn. f_equal. lia.
Qed.

Lemma mapi_from_ok {A B} (f : A -> nat -> result B) (g : nat -> A -> B) :
  forall l i,
    Forall (fun x => forall j, f x j = Ok (g j x)) l ->
    mapi_from f i l = Ok (imap (fun j => g (i + j)) l).
Proof.
  induction l as [|x l IH]; intros i Hall; [reflexivity|].
  apply Forall_cons in Hall as [Hx Hl].
  cbn [mapi_from imap]. rewrite Hx. cbn [bind].
  rewrite (IH (S i) Hl). cbn [bind]. rewrite Nat.add_0_r. do 2 f_equal.
  apply imap_ext. intros j a _. cbn. f_equal. lia.
Qed.

Lemma instructions_le (divs : list div) :
  length (concat (map instruction_of divs)) <= length divs.
Proof.
  induction divs as [|d divs IH]; [reflexivity|].
  cbn [map concat length]. rewrite length_app.
  assert (length (instruction_of d) <= 1).
  { unfold instruction_of. destruct (displayElement d) as [[]|]; cbn; lia. }
  lia.
Qed.

Lemma instructions_imap (g : nat -> string -> div) (k : nat -> string -> jsx) :
  forall l,
    (forall j x, instruction_of (g j x) = [k j x]) ->
    concat (map instruction_of (imap g l)) = imap k l.
Proof.
  intros l. revert g k. induction l as [|x l IH]; intros g k H; [reflexivity|].
  cbn [imap map concat]. rewrite H. cbn [app]. f_equal.
  apply IH. intros j y. apply H.
Qed.

Lemma renderData_key n t idx len data i d :
  renderData n t idx len data i = Ok d -> key d = (idx, i).
Proof.
  unfold renderData.
  destruct (if includes internal_output data then _ else _); cbn [bind];
    [|discriminate].
  now intros [= <-].
Qed.

Lemma renderData_plain n t idx len data i :
  t <> TABLE ->
  includes internal_output data = false ->
  renderData n t idx len data i =
  Ok {| key := (idx, i);
        displayElement :=
          Some (if textlike_includes (Some t) then
                  OutputRowStyle
                    ((idx =? 0) && (i =? 0))
                    ((Z.of_nat idx =? Z.of_nat n - 1)
                     && (Z.of_nat i =? Z.of_nat len - 1))%Z
                    data
                else ImagePng idx data) |}.
Proof.
  intros Ht Hin. unfold renderData. rewrite Hin.
  rewrite bool_decide_eq_false_2 by assumption.
  destruct t; try contradiction; reflexivity.
Qed.

(** The fragments that the callback of the entries goes through. *)
Lemma renderEntry_fragments n e idx :
  renderEntry n e idx =
  if no_data (data e) then Ok None
  else let* divs :=
         mapi (renderData n (type e) idx (length (fragments e))) (fragments e) in
       Ok (Some divs).
Proof.
  unfold renderEntry, fragments.
  destruct (data e) as [[s|l]|]; cbn [no_data]; try reflexivity.
  all: destruct (bool_decide _); reflexivity.
Qed.

Lemma no_data_fragments e : no_data (data e) = true -> fragments e = [].
Proof.
  unfold no_data, fragments.
  destruct (data e) as [[s|l]|]; [| |reflexivity]; intros H;
    apply bool_decide_eq_true in H.
  - subst s. reflexivity.
  - destruct l; [reflexivity | discriminate].
Qed.

(** C7, as the component has it: a missing or empty payload yields no
    instruction; otherwise the component goes through the non-empty
    fragments, in order, and yields at most one instruction for each; it
    yields exactly one for each when the entry is text-like or an image
    and no fragment holds the marker, as for a text entry or an image
    with the payload of the spec, whose one instruction is for [x]. *)
Theorem fragment_filtering :
  (forall n e idx,
      no_data (data e) = true ->
      renderEntry n e idx = Ok None /\ fragments e = [])
  /\ (forall n e idx divs,
        renderEntry n e idx = Ok (Some divs) ->
        map key divs = imap (fun i _ => (idx, i)) (fragments e)
        /\ length (entry_instructions (Some divs)) <= length (fragments e))
  /\ (forall n e idx,
        type e <> TABLE ->
        Forall (fun d => includes internal_output d = false) (fragments e) ->
        exists c,
          renderEntry n e idx = Ok c
          /\ entry_instructions c = imap (plain_instruction n e idx) (fragments e))
  /\ (forall n idx,
        exists c first last,
          renderEntry n (message TEXT (Some (PArray [""; "x"; ""]))) idx = Ok c
          /\ entry_instructions c = [OutputRowStyle first last "x"])
  /\ (forall n idx,
        exists c,
          renderEntry n (message IMAGE_PNG (Some (PArray [""; "x"; ""]))) idx
          = Ok c
          /\ entry_instructions c = [ImagePng idx "x"]).
Proof.
  split; [|split; [|split; [|split]]].
  - intros n e idx H. rewrite renderEntry_fragments, H.
    split; [reflexivity | now apply no_data_fragments].
  - intros n e idx divs. rewrite renderEntry_fragments.
    destruct (no_data (data e)); [discriminate|].
    unfold mapi.
    destruct (mapi_from _ 0 (fragments e)) as [ds|err] eqn:Hds; cbn [bind];
      [|discriminate].
    intros [= <-].
    pose proof (mapi_from_inv _ key (fun i _ => (idx, i))
                  (fun x j y H => renderData_key _ _ _ _ _ _ _ H) _ _ _ Hds)
      as Hkeys.
    cbn [Nat.add] in Hkeys. split; [exact Hkeys|].
    cbn [entry_instructions].
    etransitivity; [apply instructions_le|].
    rewrite <- (length_map key), Hkeys, length_imap. reflexivity.
  - intros n e idx Ht Hall. rewrite renderEntry_fragments.
    destruct (no_data (data e)) eqn:Hno.
    + exists None. split; [reflexivity|].
      now rewrite (no_data_fragments e Hno).
    + unfold mapi.
      rewrite (mapi_from_ok _
                 (fun i d => {| key := (idx, i);
                                displayElement := Some (plain_instruction n e idx i d) |})).
      * cbn [bind Nat.add]. eexists. split; [reflexivity|].
        cbn [entry_instructions]. apply instructions_imap.
        intros j x. unfold instruction_of, plain_instruction. cbn [displayElement].
        now destruct (textlike e).
      * eapply Forall_impl; [exact Hall|].
        intros d Hd j. cbn beta. now rewrite renderData_plain.
  - intros n idx. do 3 eexists. split; reflexivity.
  - intros n idx. eexists. split; reflexivity.
Qed.

Lemma fragment_filtering_witness :
  (renderEntry 3 (message IMAGE_PNG (Some (PArray []))) 1 = Ok None
   /\ fragments (message IMAGE_PNG (Some (PArray []))) = [])
  /\ exists c,
       renderEntry 3 (message IMAGE_PNG (Some (PArray ["QUJD"; ""; "QUJE"]))) 1
       = Ok c
       /\ entry_instructions c = [ImagePng 1 "QUJD"; ImagePng 1 "QUJE"].
Proof.
  split.
  - apply (proj1 fragment_filtering). reflexivity.
  - apply (proj1 (proj2 (proj2 fragment_filtering)) 3
             (message IMAGE_PNG (Some (PArray ["QUJD"; ""; "QUJE"]))) 1).
    + discriminate.
    + repeat constructor.
Defined.

(** C7, as the spec has it: a tagged fragment that is no table is not
    empty and yields no instruction. *)
Lemma fragment_filtering_counterexample :
  fragments (text_message text_as_rows) = [text_as_rows]
  /\ renderEntry 1 (text_message text_as_rows) 0
     = Ok (Some [{| key := (0, 0); displayElement := None |}])
  /\ entry_instructions (Some [{| key := (0, 0); displayElement := None |}])
     = [].
Proof. repeat split; vm_compute; reflexivity. Qed.

(** * Further properties *)

(** ** Searching a text for the marker *)

Lemma app_cons c (a b : string) : String c a +:+ b = String c (a +:+ b).
Proof. reflexivity. Qed.

Lemma prefix_nil s : String.prefix EmptyString s = true.
Proof. now destruct s. Qed.

Lemma prefix_app_l n a b :
  String.prefix n a = true -> String.prefix n (a +:+ b) = true.
Proof.
  revert a. induction n as [|x n IH]; intros a; [intros _; apply prefix_nil|].
  destruct a as [|y a]; [discriminate|].
  rewrite app_cons. cbn [String.prefix].
  destruct (ascii_dec x y); [apply IH | discriminate].
Qed.

Lemma includes_app_l n a b :
  includes n a = true -> includes n (a +:+ b) = true.
Proof.
  induction a as [|y a IH]; cbn [includes]; intros H.
  - rewrite orb_false_r in H.
    destruct n; [|discriminate]. now destruct b.
  - apply orb_true_iff in H as [H|H]; rewrite app_cons; cbn [includes];
      apply orb_true_iff.
    + left. apply (prefix_app_l _ (String y a)). exact H.
    + right. now apply IH.
Qed.

Lemma includes_app_r n a b :
  includes n b = true -> includes n (a +:+ b) = true.
Proof.
  intros H. induction a as [|y a IH]; [exact H|].
  rewrite app_cons. cbn [includes]. rewrite IH. apply orb_true_r.
Qed.

Lemma prefix_sep c n a b :
  occurs c n = false ->
  String.prefix n (a +:+ String c b) = true ->
  String.prefix n a = true.
Proof.
  revert a. induction n as [|x n IH]; intros a Hc; [intros _; apply prefix_nil|].
  cbn [occurs] in Hc. apply orb_false_iff in Hc as [Hx Hn].
  apply bool_decide_eq_false in Hx.
  destruct a as [|y a].
  - change (EmptyString +:+ String c b) with (String c b).
    cbn [String.prefix]. destruct (ascii_dec x c); [congruence | discriminate].
  - rewrite app_cons. cbn [String.prefix].
    destruct (ascii_dec x y); [now apply IH | discriminate].
Qed.

Lemma includes_sep c n a b :
  occurs c n = false ->
  includes n (a +:+ String c b) = true ->
  includes n a = true \/ includes n b = true.
Proof.
  intros Hc. induction a as [|y a IH].
  - change (EmptyString +:+ String c b) with (String c b).
    cbn [includes]. intros H. apply orb_true_iff in H as [H|H]; [|now right].
    left. apply (prefix_sep c n EmptyString b Hc) in H.
    cbn [includes]. now rewrite H.
  - rewrite app_cons. cbn [includes]. intros H.
    apply orb_true_iff in H as [H|H].
    + left. apply (prefix_sep c n (String y a) b Hc) in H. now rewrite H.
    + destruct (IH H) as [Ha|Hb]; [left | now right].
      rewrite Ha. apply orb_true_r.
Qed.

Lemma concat_cons sep x y (l : list string) :
  String.concat sep (x :: y :: l) = x +:+ sep +:+ String.concat sep (y :: l).
Proof. reflexivity. Qed.

Lemma includes_concat_sep c n (l : list string) :
  occurs c n = false ->
  includes n EmptyString = false ->
  includes n (String.concat (String c EmptyString) l) = true ->
  Exists (fun x => includes n x = true) l.
Proof.
  intros Hc He. induction l as [|x l IH]; intros H.
  - cbn [String.concat] in H. congruence.
  - destruct l as [|y l].
    + left. exact H.
    + rewrite concat_cons in H.
      change (String c EmptyString +:+ String.concat (String c EmptyString) (y :: l))
        with (String c (String.concat (String c EmptyString) (y :: l))) in H.
      apply (includes_sep c n) in H as [H|H]; [now left | right; now apply IH | exact Hc].
Qed.

Lemma includes_concat_elem sep n (l : list string) :
  Exists (fun x => includes n x = true) l ->
  includes n (String.concat sep l) = true.
Proof.
  induction l as [|x l IH]; intros H; [inversion H|].
  destruct l as [|y l].
  - apply Exists_cons in H as [H|H]; [exact H | inversion H].
  - rewrite concat_cons. apply Exists_cons in H as [H|H].
    + now apply includes_app_l.
    + apply includes_app_r, includes_app_r. now apply IH.
Qed.

(** Text appended to a tagged payload leaves it tagged: the marker holds
    neither a newline nor a comma, so that it lies within one string of an
    array, whichever way the array is joined. *)
Lemma tagged_plus_string d s :
  includes internal_output (text_of d) = true ->
  includes internal_output (plus_string d s) = true.
Proof.
  destruct d as [[a|l]|]; unfold text_of; cbn [combineTextData plus_string].
  - apply includes_app_l.
  - intros H. apply includes_app_l, includes_concat_elem.
    now apply (includes_concat_sep "010"%char).
  - discriminate.
Qed.

(** ** When the aggregation returns *)

Lemma combinedMessages_payload ms out :
  combinedMessages ms = Ok out -> Forall has_payload ms.
Proof.
  intros Hout. destruct (payload_dec ms) as [H|H]; [exact H|].
  rewrite (combinedMessages_throws ms H) in Hout. discriminate.
Qed.

Lemma combinedMessages_snoc_inv ms m out' :
  combinedMessages (ms ++ [m]) = Ok out' ->
  exists out, combinedMessages ms = Ok out /\ reducer out m = Ok out'.
Proof.
  rewrite combinedMessages_snoc.
  destruct (combinedMessages ms) as [out|e]; cbn [bind]; [|discriminate].
  intros H. now exists out.
Qed.

(** X1: the aggregation returns exactly when every text-like message has
    a payload; otherwise it raises a [TypeError], the marker being looked
    for in a payload that is [undefined]. *)
Theorem aggregation_returns (ms : list KernelOutputType) :
  ((exists out, combinedMessages ms = Ok out) <-> Forall has_payload ms)
  /\ (combinedMessages ms = Throw TypeError
      <-> Exists (fun m => textlike m = true /\ data m = None) ms).
Proof.
  split; split.
  - intros [out H]. now apply (combinedMessages_payload ms out).
  - intros H. destruct (combinedMessages_runs ms H) as (out & _ & Hout & _).
    now exists out.
  - intros H. destruct (payload_dec ms) as [Hall|Hex]; [|exact Hex].
    destruct (combinedMessages_runs ms Hall) as (out & _ & Hout & _).
    congruence.
  - apply combinedMessages_throws.
Qed.

(** ** Entries that are settled *)

Lemma merges_snoc arr l curr : merges (arr ++ [l]) curr = merges [l] curr.
Proof. unfold merges. now rewrite last_snoc. Qed.

Lemma adjacent_ok_snoc out e :
  adjacent_ok (out ++ [e]) = adjacent_ok out && negb (merges out e).
Proof.
  induction out as [|e1 rest IH]; [reflexivity|].
  destruct rest as [|e2 r].
  - cbn [app adjacent_ok]. now rewrite !andb_true_r.
  - change ((e1 :: e2 :: r) ++ [e]) with (e1 :: ((e2 :: r) ++ [e])).
    cbn [adjacent_ok] in *. cbn [app] in *. rewrite IH.
    rewrite <- !andb_assoc. reflexivity.
Qed.

Lemma adjacent_ok_lookup out i e1 e2 :
  adjacent_ok out = true ->
  out !! i = Some e1 -> out !! S i = Some e2 ->
  merges [e1] e2 = false.
Proof.
  revert i. induction out as [|x rest IH]; intros i Hok H1 H2; [discriminate|].
  cbn [adjacent_ok] in Hok. apply andb_prop in Hok as [Hx Hrest].
  destruct i as [|i].
  - cbn in H1, H2. injection H1 as ->.
    destruct rest as [|y r]; [discriminate|].
    cbn in H2. injection H2 as ->. now apply negb_true_iff.
  - cbn in H1, H2. now apply (IH i).
Qed.

Lemma text_of_combine d : text_of (combineTextData d) = text_of d.
Proof. now destruct d as [[s|l]|]. Qed.

Lemma first_entry_type m : type (first_entry m) = type m.
Proof. unfold first_entry. now destruct (textlike m && negb (tagged m)). Qed.

Lemma first_entry_tagged m : tagged (first_entry m) = tagged m.
Proof.
  unfold first_entry. destruct (textlike m && negb (tagged m)); [|reflexivity].
  unfold tagged. cbn [with_data data]. now rewrite text_of_combine.
Qed.

Lemma merges_first_entry arr m : merges arr (first_entry m) = merges arr m.
Proof.
  unfold merges. destruct (last arr); [|reflexivity].
  now rewrite first_entry_type, first_entry_tagged.
Qed.

Lemma combine_payload m :
  has_payload m -> textlike m = true ->
  combineTextData (combineTextData (data m)) = combineTextData (data m)
  /\ is_Some (combineTextData (data m)).
Proof.
  intros Hp Ht. destruct (Hp Ht) as [p Hd]. rewrite Hd.
  destruct p; split; eauto.
Qed.

Lemma first_entry_settled m :
  has_payload m ->
  has_payload (first_entry m) /\ plain_is_string (first_entry m).
Proof.
  intros Hp. unfold first_entry.
  destruct (textlike m) eqn:Ht; cbn [andb].
  - destruct (combine_payload m Hp Ht) as [Hc Hs].
    destruct (tagged m) eqn:Hg; cbn [negb].
    + split; [exact Hp|]. intros _ Hg'. congruence.
    + split.
      * intros _. exact Hs.
      * intros _ _. exact Hc.
  - split; [exact Hp|]. intros Ht'. congruence.
Qed.

Lemma reducer_settled out m out' :
  has_payload m -> settled out -> reducer out m = Ok out' -> settled out'.
Proof.
  intros Hp (Hpay & Hplain & Hadj) Hred.
  destruct (merges out m) eqn:Hm.
  - assert (Hlast : exists o l, out = o ++ [l]).
    { unfold merges in Hm. destruct (last out) as [l|] eqn:Hl; [|discriminate].
      apply last_Some in Hl as [o ->]. now exists o, l. }
    destruct Hlast as (o & l & ->).
    rewrite reducer_merge in Hred by assumption. injection Hred as <-.
    apply Forall_app in Hpay as [Hpay _].
    apply Forall_app in Hplain as [Hplain _].
    rewrite adjacent_ok_snoc in Hadj. apply andb_prop in Hadj as [Hadj Hl].
    split; [|split].
    + apply Forall_app. split; [exact Hpay|].
      constructor; [|constructor]. intros _. cbn [with_data data]. eauto.
    + apply Forall_app. split; [exact Hplain|].
      constructor; [|constructor]. intros _ _. reflexivity.
    + rewrite adjacent_ok_snoc, Hadj. cbn [andb].
      apply negb_true_iff in Hl. apply negb_true_iff.
      unfold merges in *. destruct (last o) as [p|]; [|reflexivity].
      cbn [with_data type].
      destruct (textlike p && bool_decide (type p = type l)); [|reflexivity].
      cbn [andb] in *. apply negb_false_iff in Hl. apply negb_false_iff.
      unfold tagged in *. cbn [with_data data].
      change (text_of (Some (PString (plus_string (data l) (text_of (data m))))))
        with (plus_string (data l) (text_of (data m))).
      now apply tagged_plus_string.
  - rewrite reducer_push in Hred by assumption. injection Hred as <-.
    destruct (first_entry_settled m Hp) as [H1 H2].
    split; [|split].
    + apply Forall_app. split; [exact Hpay | now constructor].
    + apply Forall_app. split; [exact Hplain | now constructor].
    + now rewrite adjacent_ok_snoc, Hadj, merges_first_entry, Hm.
Qed.

Lemma combinedMessages_settled ms out :
  combinedMessages ms = Ok out -> settled out.
Proof.
  revert out. induction ms as [|m ms IH] using rev_ind; intros out' H.
  - injection H as <-. repeat split; constructor.
  - pose proof (combinedMessages_payload _ _ H) as Hp.
    apply Forall_app in Hp as [_ Hp]. apply Forall_inv in Hp.
    apply combinedMessages_snoc_inv in H as (out & Hout & Hred).
    eapply reducer_settled; eauto.
Qed.

Lemma settled_fixpoint out : settled out -> combinedMessages out = Ok out.
Proof.
  induction out as [|e out IH] using rev_ind; intros (Hpay & Hplain & Hadj);
    [reflexivity|].
  apply Forall_app in Hpay as [Hpay He]. apply Forall_inv in He.
  apply Forall_app in Hplain as [Hplain Hs]. apply Forall_inv in Hs.
  rewrite adjacent_ok_snoc in Hadj. apply andb_prop in Hadj as [Hadj Hm].
  apply negb_true_iff in Hm.
  rewrite combinedMessages_snoc, IH by (repeat split; assumption).
  cbn [bind]. rewrite reducer_push by assumption.
  do 2 f_equal. unfold first_entry.
  destruct (textlike e) eqn:Ht; [|reflexivity].
  destruct (tagged e) eqn:Hg; [reflexivity|]. cbn [andb negb].
  now rewrite (Hs Ht Hg), with_data_id.
Qed.

(** X2: the aggregation merges all it can: whenever an entry of the
    result is text-like and the entry after it has the same type, the
    entry after it is tagged. *)
Theorem no_mergeable_neighbours ms out i e1 e2 :
  combinedMessages ms = Ok out ->
  out !! i = Some e1 ->
  out !! S i = Some e2 ->
  textlike e1 = true ->
  type e1 = type e2 ->
  tagged e2 = true.
Proof.
  intros Hout H1 H2 Ht Hty.
  destruct (combinedMessages_settled ms out Hout) as (_ & _ & Hadj).
  pose proof (adjacent_ok_lookup out i e1 e2 Hadj H1 H2) as Hm.
  unfold merges in Hm. cbn [last] in Hm.
  rewrite Ht, bool_decide_eq_true_2 in Hm by assumption.
  cbn [andb] in Hm. now apply negb_false_iff.
Qed.

Lemma no_mergeable_neighbours_witness :
  tagged (text_message (table_in_text +:+ "b")) = true.
Proof.
  apply (no_mergeable_neighbours
           [text_message "a"; text_message table_in_text; text_message "b"]
           [text_message "a"; text_message (table_in_text +:+ "b")]
           0 (text_message "a") (text_message (table_in_text +:+ "b")));
    reflexivity.
Defined.

(** X3: aggregating the entries of an aggregation again returns them
    unchanged. *)
Theorem aggregation_idempotent ms out :
  combinedMessages ms = Ok out -> combinedMessages out = Ok out.
Proof.
  intros H. apply settled_fixpoint. now apply (combinedMessages_settled ms).
Qed.

Lemma aggregation_idempotent_witness :
  combinedMessages
    [text_message "ab"; message TABLE (Some (PArray ["{}"; "x"]));
     message TEXT (Some (PString (table_in_text +:+ "c")))]
  = Ok [text_message "ab"; message TABLE (Some (PArray ["{}"; "x"]));
        message TEXT (Some (PString (table_in_text +:+ "c")))].
Proof.
  apply (aggregation_idempotent
           [text_message "a"; text_message "b";
            message TABLE (Some (PArray ["{}"; "x"]));
            text_message table_in_text; text_message "c"]).
  reflexivity.
Defined.

(** ** What the entries hold *)

Lemma first_entry_text m : text_of (data (first_entry m)) = text_of (data m).
Proof.
  unfold first_entry. destruct (textlike m && negb (tagged m)); [|reflexivity].
  cbn [with_data data]. apply text_of_combine.
Qed.

Lemma first_entry_string m :
  has_payload m -> array_is_plain m -> text_is_string (first_entry m).
Proof.
  intros Hp Ha. unfold text_is_string, first_entry.
  destruct (textlike m) eqn:Ht; cbn [andb].
  - destruct (Hp Ht) as [p Hd].
    destruct (tagged m) eqn:Hg; cbn [negb]; intros _.
    + destruct p as [s|l]; [eauto|].
      destruct (Ha l Hd) as [_ Hg']. congruence.
    + cbn [with_data data]. rewrite Hd. destruct p; cbn [combineTextData]; eauto.
  - intros Ht'. congruence.
Qed.

Lemma texts_invariant ms :
  Forall has_payload ms ->
  Forall array_is_plain ms ->
  exists out,
    combinedMessages ms = Ok out
    /\ Forall text_is_string out
    /\ texts out = texts ms.
Proof.
  induction ms as [|m ms IH] using rev_ind; intros Hpay Harr.
  - exists []. repeat split. constructor.
  - apply Forall_app in Hpay as [Hpay Hp]. apply Forall_inv in Hp.
    apply Forall_app in Harr as [Harr Ha]. apply Forall_inv in Ha.
    destruct (IH Hpay Harr) as (out & Hout & Hstr & Htexts).
    rewrite combinedMessages_snoc, Hout. cbn [bind].
    destruct (merges out m) eqn:Hm.
    + assert (Hlast : exists o l, out = o ++ [l] /\ textlike l = true).
      { unfold merges in Hm. destruct (last out) as [l|] eqn:Hl; [|discriminate].
        apply last_Some in Hl as [o ->]. exists o, l. split; [reflexivity|].
        apply andb_prop in Hm as [Hm _]. now apply andb_prop in Hm as [Hm _]. }
      destruct Hlast as (o & l & -> & Hl).
      rewrite reducer_merge by assumption. eexists. split; [reflexivity|].
      apply Forall_app in Hstr as [Hstr Hls]. apply Forall_inv in Hls.
      destruct (Hls Hl) as [s Hs].
      split.
      * apply Forall_app. split; [exact Hstr|].
        constructor; [|constructor]. intros _. cbn [with_data data]. eauto.
      * rewrite !texts_snoc, <- Htexts, texts_snoc. cbn [with_data data].
        rewrite Hs. unfold text_of at 1 3. cbn [combineTextData plus_string].
        now rewrite string_app_assoc.
    + rewrite reducer_push by assumption. eexists. split; [reflexivity|].
      split.
      * apply Forall_app. split; [exact Hstr|].
        constructor; [now apply first_entry_string | constructor].
      * now rewrite !texts_snoc, first_entry_text, Htexts.
Qed.

(** X4: when the array payloads all come with text-like messages that are
    not tagged, the aggregation keeps the text as it is: the texts of the
    entries, one after the other, are the texts of the messages, one after
    the other. *)
Theorem texts_preserved ms out :
  combinedMessages ms = Ok out ->
  Forall array_is_plain ms ->
  texts out = texts ms.
Proof.
  intros Hout Harr.
  pose proof (combinedMessages_payload ms out Hout) as Hpay.
  destruct (texts_invariant ms Hpay Harr) as (out' & Hout' & _ & Htexts).
  congruence.
Qed.

Lemma texts_preserved_witness :
  texts [message TEXT (Some (PString ("a" +:+ newline +:+ "b" +:+ "c")));
         message IMAGE_PNG (Some (PString "QUJD")); text_message "d"]
  = texts [message TEXT (Some (PArray ["a"; "b"])); text_message "c";
           message IMAGE_PNG (Some (PString "QUJD")); text_message "d"].
Proof.
  apply (texts_preserved
           [message TEXT (Some (PArray ["a"; "b"])); text_message "c";
            message IMAGE_PNG (Some (PString "QUJD")); text_message "d"]).
  - reflexivity.
  - repeat (apply List.Forall_cons); try apply List.Forall_nil;
      intros l H; first [discriminate H | injection H as <-];
      split; reflexivity.
Defined.

(** ** The objects of the entries *)

(** X5: over the store, the aggregation allocates one object for each
    entry and nothing else: the references it returns are pairwise
    distinct, they point to objects that did not exist before, and none
    of them is the reference of a message. *)
Theorem entries_are_fresh (h0 : heap) (messages : list ref) h1 arr1 :
  Forall (fun r => is_Some (h0 !! r)) messages ->
  combinedMessages_heap h0 messages = Ok (h1, arr1) ->
  NoDup arr1
  /\ length h1 = length h0 + length arr1
  /\ Forall (fun a => length h0 <= a < length h1) arr1
  /\ Forall (fun r => r ∉ arr1) messages.
Proof.
  intros Hvalid Hrun. destruct (dereference _ _ Hvalid) as [cs Hcs].
  rewrite (combinedMessages_heap_sim _ _ _ Hcs) in Hrun.
  destruct (combinedMessages cs) as [out|e]; [|discriminate].
  injection Hrun as <- <-.
  rewrite length_app, length_seq.
  split; [|split; [|split]].
  - apply NoDup_seq.
  - reflexivity.
  - apply Forall_forall. intros a Ha. apply elem_of_seq in Ha. lia.
  - eapply Forall_impl; [exact Hvalid|].
    intros r Hr Hin. apply elem_of_seq in Hin.
    apply lookup_lt_is_Some in Hr. lia.
Qed.

Lemma entries_are_fresh_witness :
  NoDup [3; 4]
  /\ length (sample_heap ++ [text_message "ab"; message TABLE None]) = 3 + 2
  /\ Forall (fun a => 3 <= a < 5) [3; 4]
  /\ Forall (fun r => r ∉ [3; 4]) [0; 2; 1].
Proof.
  apply (entries_are_fresh sample_heap [0; 2; 1]
           (sample_heap ++ [text_message "ab"; message TABLE None]) [3; 4]).
  - repeat constructor; eexists; reflexivity.
  - reflexivity.
Defined.

(** ** Where the elements of a run come from *)

Lemma mapi_from_lookup {A B} (f : A -> nat -> result B) l i ys j y :
  mapi_from f i l = Ok ys ->
  ys !! j = Some y ->
  exists x, l !! j = Some x /\ f x (i + j) = Ok y.
Proof.
  revert i ys j. induction l as [|x l IH]; intros i ys j; cbn [mapi_from].
  - intros [= <-]. discriminate.
  - destruct (f x i) as [y0|e] eqn:Hy; cbn [bind]; [|discriminate].
    destruct (mapi_from f (S i) l) as [ys'|e] eqn:Hys; cbn [bind]; [|discriminate].
    intros [= <-]. destruct j as [|j]; cbn.
    + intros [= <-]. exists x. now rewrite Nat.add_0_r.
    + intros Hj. destruct (IH _ _ _ Hys Hj) as (x' & Hx & Hf).
      exists x'. split; [exact Hx|]. now rewrite Nat.add_succ_r.
Qed.

Lemma mapi_from_length {A B} (f : A -> nat -> result B) l i ys :
  mapi_from f i l = Ok ys -> length ys = length l.
Proof.
  revert i ys. induction l as [|x l IH]; intros i ys; cbn [mapi_from].
  - now intros [= <-].
  - destruct (f x i) as [y0|e]; cbn [bind]; [|discriminate].
    destruct (mapi_from f (S i) l) as [ys'|e] eqn:Hys; cbn [bind]; [|discriminate].
    intros [= <-]. cbn [length]. f_equal. now apply (IH (S i)).
Qed.

Lemma CodeOutput_inv props r :
  CodeOutput props = Ok r ->
  exists out,
    combinedMessages (messages props) = Ok out
    /\ mapi (renderEntry (length (messages props))) out = Ok (children r).
Proof.
  unfold CodeOutput.
  destruct (messages props) as [|m ms]; cbn [bind]; [discriminate|].
  destruct (combinedMessages (m :: ms)) as [out|e]; cbn [bind]; [|discriminate].
  destruct (mapi _ out) as [cs|e] eqn:Hcs; cbn [bind]; [|discriminate].
  intros [= <-]. now exists out.
Qed.

Lemma renderEntry_lookup n e idx divs j d :
  renderEntry n e idx = Ok (Some divs) ->
  divs !! j = Some d ->
  exists data,
    fragments e !! j = Some data
    /\ renderData n (type e) idx (length (fragments e)) data j = Ok d.
Proof.
  rewrite renderEntry_fragments.
  destruct (no_data (data e)); [discriminate|]. unfold mapi.
  destruct (mapi_from _ 0 (fragments e)) as [ds|err] eqn:Hds; cbn [bind];
    [|discriminate].
  intros [= <-] Hj.
  destruct (mapi_from_lookup _ _ _ _ _ _ Hds Hj) as (x & Hx & Hf).
  now exists x.
Qed.

(** Every [div] of a run is the rendering of a non-empty fragment of an
    entry of the aggregation, at the index of the entry and of the
    fragment. *)
Lemma div_origin props r idx divs j d :
  CodeOutput props = Ok r ->
  children r !! idx = Some (Some divs) ->
  divs !! j = Some d ->
  exists out entry data,
    combinedMessages (messages props) = Ok out
    /\ out !! idx = Some entry
    /\ fragments entry !! j = Some data
    /\ renderData (length (messages props)) (type entry) idx
         (length (fragments entry)) data j = Ok d.
Proof.
  intros Hr Hidx Hj.
  destruct (CodeOutput_inv props r Hr) as (out & Hout & Hcs).
  destruct (mapi_from_lookup _ _ _ _ _ _ Hcs Hidx) as (entry & He & Hre).
  destruct (renderEntry_lookup _ _ _ _ _ _ Hre Hj) as (data & Hd & Hrd).
  now exists out, entry, data.
Qed.

Lemma elem_of_divs_of r d :
  d ∈ divs_of r ->
  exists idx divs j,
    children r !! idx = Some (Some divs) /\ divs !! j = Some d.
Proof.
  unfold divs_of. intros H. apply list_elem_of_In, in_concat in H.
  destruct H as (ds & Hds & Hd).
  apply in_map_iff in Hds as (c & <- & Hc).
  apply list_elem_of_In, list_elem_of_lookup in Hc as [idx Hidx].
  destruct c as [divs|]; [|inversion Hd].
  apply list_elem_of_In, list_elem_of_lookup in Hd as [j Hj].
  now exists idx, divs, j.
Qed.

Lemma elem_of_instructions r e :
  e ∈ instructions r ->
  exists d, d ∈ divs_of r /\ displayElement d = Some e.
Proof.
  unfold instructions, divs_of. intros H.
  apply list_elem_of_In, in_concat in H. destruct H as (es & Hes & He).
  apply in_map_iff in Hes as (c & <- & Hc).
  destruct c as [divs|]; [|inversion He].
  cbn [entry_instructions] in He. apply in_concat in He as (ds & Hds & He).
  apply in_map_iff in Hds as (d & <- & Hd).
  exists d. split.
  - apply list_elem_of_In, in_concat. exists divs. split; [|exact Hd].
    apply in_map_iff. now exists (Some divs).
  - unfold instruction_of in He.
    destruct (displayElement d) as [[]|]; cbn in He;
      try contradiction; destruct He as [<-|[]]; reflexivity.
Qed.

(** ** The flag of the last fragment *)

(** X6: the flag [last] is only ever set on an ANSI text of the entry whose
    index is the number of messages less one; as soon as two messages
    have been merged there is no such entry, and no element of the run
    has the flag. *)
Theorem last_needs_no_merge props r out first is_last text :
  CodeOutput props = Ok r ->
  combinedMessages (messages props) = Ok out ->
  OutputRowStyle first is_last text ∈ instructions r ->
  is_last = true ->
  length out = length (messages props)
  /\ exists divs d,
       children r !! (length out - 1) = Some (Some divs)
       /\ last divs = Some d
       /\ displayElement d = Some (OutputRowStyle first is_last text).
Proof.
  intros Hr Hout Hin Hlast.
  destruct (elem_of_instructions r _ Hin) as (d & Hd & Hde).
  destruct (elem_of_divs_of r d Hd) as (idx & divs & j & Hidx & Hj).
  destruct (div_origin props r idx divs j d Hr Hidx Hj)
    as (out' & entry & frag & Hout' & Hentry & Hfrag & Hrd).
  assert (out' = out) as -> by congruence.
  destruct (renderData_flags _ _ _ _ _ _ _ _ _ _ Hrd Hde) as (_ & Hl & _).
  rewrite Hlast in Hl. symmetry in Hl.
  apply andb_prop in Hl as [H1 H2].
  apply Z.eqb_eq in H1. apply Z.eqb_eq in H2.
  pose proof (lookup_lt_Some _ _ _ Hentry) as Hlt.
  destruct (combinedMessages_runs _ (combinedMessages_payload _ _ Hout))
    as (out'' & groups & Hout'' & Hcat & Hrep).
  assert (out'' = out) as -> by congruence.
  assert (Hle : length out <= length (messages props)).
  { rewrite <- Hcat. clear - Hrep.
    induction Hrep as [|g e gs es (m & rest & -> & _) _ IH]; [reflexivity|].
    cbn [concat length]. rewrite length_app. cbn [length]. lia. }
  split; [lia|].
  exists divs, d. split; [|split; [|exact Hde]].
  - replace (length out - 1) with idx by lia. exact Hidx.
  - destruct (CodeOutput_inv props r Hr) as (out3 & Hout3 & Hcs).
    assert (out3 = out) as -> by congruence.
    destruct (mapi_from_lookup _ _ _ _ _ _ Hcs Hidx) as (entry' & He' & Hre).
    cbn [Nat.add] in He', Hre.
    assert (entry' = entry) as -> by congruence.
    rewrite renderEntry_fragments in Hre.
    destruct (no_data (data entry)); [discriminate|]. unfold mapi in Hre.
    destruct (mapi_from _ 0 (fragments entry)) as [ds|err] eqn:Hds;
      cbn [bind] in Hre; [|discriminate].
    injection Hre as ->.
    apply mapi_from_length in Hds.
    destruct divs as [|x init _] using rev_ind; [discriminate|].
    rewrite length_app in Hds. cbn [length] in Hds.
    rewrite lookup_app_r in Hj by lia.
    replace (j - length init) with 0 in Hj by lia. injection Hj as ->.
    apply last_snoc.
Qed.

Lemma last_needs_no_merge_witness :
  length [text_message "a"; message IMAGE_PNG (Some (PString "QUJD"));
          message TEXT_PLAIN (Some (PArray ["b"; "c"]))]
  = length (messages
              (props_of
                 [text_message "a"; message IMAGE_PNG (Some (PString "QUJD"));
                  message TEXT_PLAIN (Some (PArray ["b"; "c"]))]))
  /\ exists divs d,
       [Some [{| key := (0, 0);
                 displayElement := Some (OutputRowStyle true false "a") |}];
        Some [{| key := (1, 0);
                 displayElement := Some (ImagePng 1 "QUJD") |}];
        Some [{| key := (2, 0);
                 displayElement :=
                   Some (OutputRowStyle false true ("b" +:+ newline +:+ "c")) |}]]
       !! (3 - 1) = Some (Some divs)
       /\ last divs = Some d
       /\ displayElement d
          = Some (OutputRowStyle false true ("b" +:+ newline +:+ "c")).
Proof.
  apply (last_needs_no_merge
           (props_of
              [text_message "a"; message IMAGE_PNG (Some (PString "QUJD"));
               message TEXT_PLAIN (Some (PArray ["b"; "c"]))])
           {| children :=
                [Some [{| key := (0, 0);
                          displayElement := Some (OutputRowStyle true false "a") |}];
                 Some [{| key := (1, 0);
                          displayElement := Some (ImagePng 1 "QUJD") |}];
                 Some [{| key := (2, 0);
                          displayElement :=
                            Some (OutputRowStyle false true
                                    ("b" +:+ newline +:+ "c")) |}]];
              extraInfo := true |}
           [text_message "a"; message IMAGE_PNG (Some (PString "QUJD"));
            message TEXT_PLAIN (Some (PString ("b" +:+ newline +:+ "c")))]).
  - reflexivity.
  - reflexivity.
  - cbn. apply list_elem_of_In. right. right. left. reflexivity.
  - reflexivity.
Defined.

(** ** Keys *)

Lemma imap_pair {A} (a o : nat) (l : list A) :
  imap (fun k _ => (a, o + k)) l = map (pair a) (seq o (length l)).
Proof.
  revert o. induction l as [|x l IH]; intros o; [reflexivity|].
  cbn [imap length seq map]. rewrite Nat.add_0_r. f_equal.
  rewrite <- IH. apply imap_ext. intros k y _. cbn. f_equal. lia.
Qed.

Lemma child_keys props r idx c :
  CodeOutput props = Ok r ->
  children r !! idx = Some c ->
  map key (divs_of_child c)
  = map (pair idx) (seq 0 (length (divs_of_child c))).
Proof.
  intros Hr Hidx. destruct c as [divs|]; [|reflexivity].
  destruct (CodeOutput_inv props r Hr) as (out & _ & Hcs).
  destruct (mapi_from_lookup _ _ _ _ _ _ Hcs Hidx) as (entry & _ & Hre).
  cbn [Nat.add divs_of_child] in *.
  rewrite renderEntry_fragments in Hre.
  destruct (no_data (data entry)); [discriminate|]. unfold mapi in Hre.
  destruct (mapi_from _ 0 (fragments entry)) as [ds|err] eqn:Hds;
    cbn [bind] in Hre; [|discriminate].
  injection Hre as ->.
  rewrite (mapi_from_inv _ key (fun i _ => (idx, i))
             (fun x j y H => renderData_key _ _ _ _ _ _ _ H) _ _ _ Hds).
  rewrite (imap_pair idx 0), (mapi_from_length _ _ _ _ Hds). reflexivity.
Qed.

Lemma keys_NoDup (kss : list (list (nat * nat))) (o : nat) :
  (forall idx ks, kss !! idx = Some ks ->
                  ks = map (pair (o + idx)) (seq 0 (length ks))) ->
  NoDup (concat kss) /\ Forall (fun k => o <= k.1) (concat kss).
Proof.
  revert o. induction kss as [|ks kss IH]; intros o H.
  - split; constructor.
  - destruct (IH (S o)) as [Hnd Hge].
    { intros idx ks' Hidx. specialize (H (S idx) ks' Hidx).
      now rewrite Nat.add_succ_r in H. }
    specialize (H 0 ks eq_refl). rewrite Nat.add_0_r in H.
    cbn [concat]. split.
    + apply NoDup_app. split; [|split; [|exact Hnd]].
      * rewrite H. apply (NoDup_fmap_2 _). apply NoDup_seq.
      * intros k Hk Hk'. rewrite H in Hk.
        apply list_elem_of_In, in_map_iff in Hk as (i & <- & _).
        rewrite Forall_forall in Hge. specialize (Hge _ Hk'). cbn in Hge. lia.
    + apply Forall_app. split.
      * rewrite H. apply Forall_forall. intros k Hk.
        apply list_elem_of_In, in_map_iff in Hk as (i & <- & _). cbn. lia.
      * eapply Forall_impl; [exact Hge|]. intros k Hk. cbn in *. lia.
Qed.

(** X7: no two [div]s of a run have the same key: the key of a [div] is
    the index of its entry and the index of its fragment among the
    non-empty fragments of the entry. *)
Theorem keys_are_unique props r :
  CodeOutput props = Ok r ->
  NoDup (map key (divs_of r)).
Proof.
  intros Hr. unfold divs_of. rewrite concat_map, map_map.
  apply (keys_NoDup _ 0). intros idx ks Hidx. cbn [Nat.add].
  change (map (fun c => map key (divs_of_child c)) (children r))
    with ((fun c => map key (divs_of_child c)) <$> children r) in Hidx.
  rewrite list_lookup_fmap in Hidx.
  destruct (children r !! idx) as [c|] eqn:Hc; [|discriminate].
  injection Hidx as <-. rewrite length_map.
  now apply (child_keys props r).
Qed.

Lemma keys_are_unique_witness :
  NoDup [(0, 0); (2, 0); (2, 1)].
Proof.
  apply (keys_are_unique
           (props_of
              [text_message "a"; text_message "b";
               message IMAGE_PNG (Some (PArray [])); 
               message IMAGE_PNG (Some (PArray ["QUJD"; ""; "QUJE"]))])
           {| children :=
                [Some [{| key := (0, 0);
                          displayElement := Some (OutputRowStyle true false "ab") |}];
                 None;
                 Some [{| key := (2, 0);
                          displayElement := Some (ImagePng 2 "QUJD") |};
                       {| key := (2, 1);
                          displayElement := Some (ImagePng 2 "QUJE") |}]];
              extraInfo := true |}).
  reflexivity.
Defined.

(** ** Tagged fragments and tables *)

Lemma renderData_exception n t idx len data i e :
  renderData n t idx len data i = Throw e -> e = TypeError.
Proof.
  unfold renderData, isJsonString, JSON_parse_or_throw, destructured,
    createDataTableElement, rows_length_ge_one, ge_one.
  repeat case_result; try discriminate;
    repeat match goal with
           | H : bool_decide (is_Some _) = true |- _ =>
               apply bool_decide_eq_true in H; destruct H as [? H]
           | H : context [match ?x with _ => _ end] |- _ =>
               destruct x eqn:?; try discriminate
           end;
    try congruence.
  all: repeat match goal with
              | |- context [match ?x with _ => _ end] =>
                  destruct x eqn:?; cbn [bind]
              end; try discriminate; try congruence.
  all: intros; congruence.
Qed.

Lemma createDataTableElement_inv arg e :
  createDataTableElement arg = Ok e ->
  exists ms r,
    arg = Some (JObject ms) /\ assoc_last "rows" ms = Some r /\ r <> JNull.
Proof.
  unfold createDataTableElement.
  destruct arg as [v|]; [|discriminate].
  destruct v as [|b|m x|s|l|ms]; try discriminate.
  cbn [get_field]. destruct (assoc_last "rows" ms) as [r|] eqn:Hr; [|discriminate].
  intros H. exists ms, r. split; [reflexivity|]. split; [exact Hr|].
  intros ->. discriminate H.
Qed.

(** X8: a fragment that holds the marker is never rendered as text or as
    an image, whatever the type of its entry: it gives a table, [false]
    or nothing.  It gives nothing, and no error, when what is left
    without the marker is no JSON text, or is a JSON value other than
    [null] whose [type] is not [table]. *)
Theorem tagged_fragment n t idx len frag i :
  includes internal_output frag = true ->
  (forall d, renderData n t idx len frag i = Ok d ->
             match displayElement d with
             | Some (OutputRowStyle _ _ _) | Some (ImagePng _ _) => False
             | _ => True
             end)
  /\ (JSON_parse (remove_first internal_output frag) = None ->
      renderData n t idx len frag i
      = Ok {| key := (idx, i); displayElement := None |})
  /\ (forall v,
        JSON_parse (remove_first internal_output frag) = Some v ->
        v <> JNull ->
        is_table (get_field v "type") = false ->
        renderData n t idx len frag i
        = Ok {| key := (idx, i); displayElement := None |}).
Proof.
  intros Hin. unfold renderData, isJsonString, JSON_parse_or_throw.
  rewrite Hin. split; [|split].
  - intros d. repeat case_result; intros [= <-]; cbn [displayElement];
      try exact I.
    match goal with
    | H : createDataTableElement _ = Ok ?e |- _ =>
        apply createDataTableElement_shape in H; now destruct e
    end.
  - intros ->. rewrite bool_decide_eq_false_2; [reflexivity|].
    intros [v Hv]. discriminate.
  - intros v -> Hv Ht. rewrite bool_decide_eq_true_2 by eauto.
    cbn [bind]. replace (destructured v) with (Ok v) by now destruct v.
    cbn [bind]. now rewrite Ht.
Qed.

Lemma tagged_fragment_witness :
  (forall d, renderData 1 IMAGE_PNG 0 1 (internal_output +:+ "{oops") 0 = Ok d ->
             match displayElement d with
             | Some (OutputRowStyle _ _ _) | Some (ImagePng _ _) => False
             | _ => True
             end)
  /\ (JSON_parse (remove_first internal_output (internal_output +:+ "{oops"))
      = None ->
      renderData 1 IMAGE_PNG 0 1 (internal_output +:+ "{oops") 0
      = Ok {| key := (0, 0); displayElement := None |})
  /\ (forall v,
        JSON_parse (remove_first internal_output (internal_output +:+ "{oops"))
        = Some v ->
        v <> JNull ->
        is_table (get_field v "type") = false ->
        renderData 1 IMAGE_PNG 0 1 (internal_output +:+ "{oops") 0
        = Ok {| key := (0, 0); displayElement := None |}).
Proof.
  apply (tagged_fragment 1 IMAGE_PNG 0 1 (internal_output +:+ "{oops") 0).
  reflexivity.
Defined.

(** X9: a fragment without the marker in an entry of type [table] is
    rendered only when it is the JSON text of an object that has a member
    [rows] other than [null]; a fragment that is no JSON text makes the
    component raise a [TypeError], and so does every other failure of a
    fragment, of whatever type. *)
Theorem table_fragment n idx len frag i :
  includes internal_output frag = false ->
  (forall d, renderData n TABLE idx len frag i = Ok d ->
             exists ms r,
               JSON_parse frag = Some (JObject ms)
               /\ assoc_last "rows" ms = Some r /\ r <> JNull)
  /\ (JSON_parse frag = None ->
      renderData n TABLE idx len frag i = Throw TypeError)
  /\ (forall t e, renderData n t idx len frag i = Throw e -> e = TypeError).
Proof.
  intros Hin. split; [|split].
  - intros d. unfold renderData, isJsonString, JSON_parse_or_throw.
    rewrite Hin. rewrite bool_decide_eq_true_2 by reflexivity.
    destruct (JSON_parse frag) as [v|] eqn:Hv.
    + rewrite bool_decide_eq_true_2 by eauto. cbn [bind].
      destruct (createDataTableElement (Some v)) as [e|err] eqn:He;
        cbn [bind]; [|discriminate].
      intros _. apply createDataTableElement_inv in He as (ms & r & [= ->] & Hr).
      now exists ms, r.
    + rewrite bool_decide_eq_false_2 by (intros [v Hv']; discriminate).
      cbn [bind]. discriminate.
  - intros Hv. unfold renderData, isJsonString. rewrite Hin, Hv.
    rewrite bool_decide_eq_true_2 by reflexivity.
    rewrite bool_decide_eq_false_2 by (intros [v Hv']; discriminate).
    reflexivity.
  - intros t e. apply renderData_exception.
Qed.

Lemma table_fragment_witness :
  (forall d, renderData 2 TABLE 0 1 "a,b" 0 = Ok d ->
             exists ms r,
               JSON_parse "a,b" = Some (JObject ms)
               /\ assoc_last "rows" ms = Some r /\ r <> JNull)
  /\ (JSON_parse "a,b" = None ->
      renderData 2 TABLE 0 1 "a,b" 0 = Throw TypeError)
  /\ (forall t e, renderData 2 t 0 1 "a,b" 0 = Throw e -> e = TypeError).
Proof.
  apply (table_fragment 2 0 1 "a,b" 0). reflexivity.
Defined.

(** ** The object [apis] *)

Lemma apis_get_set o k c k' :
  Api.get (Api.set o k c) k' = if decide (k' = k) then Some c else Api.get o k'.
Proof. now destruct o. Qed.

Lemma apis_methods_set o k c : Api.methods_of (Api.set o k c) = Api.methods_of o.
Proof. now destruct o. Qed.

Lemma apis_get_top a r s k : Api.get (Api.top a r s) k = Api.get a k.
Proof. now destruct a. Qed.

Lemma apis_methods_top a b r s s' m :
  Api.methods_of a m = Api.methods_of b m ->
  Api.methods_of (Api.top a r s) m = Api.methods_of (Api.top b r s) m
  /\ Api.methods_of (Api.top (Api.top a r s') r s) m
     = Api.methods_of (Api.top b r s) m.
Proof. destruct a, b, m; cbn; intros ->; split; reflexivity. Qed.

Lemma filter_snoc {A} (f : A -> bool) l x :
  List.filter f (l ++ [x]) = List.filter f l ++ (if f x then [x] else []).
Proof. rewrite List.filter_app. cbn. now destruct (f x). Qed.

Lemma filter_snoc_false {A} (f : A -> bool) l x :
  f x = false -> List.filter f (l ++ [x]) = List.filter f l.
Proof. intros H. now rewrite filter_snoc, H, app_nil_r. Qed.

Lemma filter_snoc_true {A} (f : A -> bool) l x :
  f x = true -> List.filter f (l ++ [x]) = List.filter f l ++ [x].
Proof. intros H. now rewrite filter_snoc, H. Qed.

Lemma filter_nil_impl {A} (f g : A -> bool) l :
  (forall x, g x = true -> f x = true) ->
  List.filter f l = [] -> List.filter g l = [].
Proof.
  intros Himpl. induction l as [|x l IH]; [reflexivity|]. cbn.
  destruct (f x) eqn:Hf; [discriminate|]. intros H.
  destruct (g x) eqn:Hg; [|now apply IH].
  apply Himpl in Hg. congruence.
Qed.

Lemma filter_not_nil {A} (f : A -> bool) l :
  List.filter f l <> [] <-> exists x, x ∈ l /\ f x = true.
Proof.
  split.
  - intros H. destruct (List.filter f l) as [|x xs] eqn:E; [contradiction|].
    assert (Hin : In x (List.filter f l)) by (rewrite E; now left).
    apply filter_In in Hin as [Hin Hf]. exists x.
    split; [now apply list_elem_of_In | exact Hf].
  - intros (x & Hin & Hf) E.
    assert (Hx : In x (List.filter f l)).
    { apply filter_In. split; [now apply list_elem_of_In | exact Hf]. }
    rewrite E in Hx. inversion Hx.
Qed.

Lemma snoc_not_nil {A} (l : list A) x : l ++ [x] <> [].
Proof. now destruct l. Qed.

Lemma head_snoc {A} (l : list A) x :
  head (l ++ [x]) = match head l with Some y => Some y | None => Some x end.
Proof. now destruct l. Qed.

Lemma apis_get_set_method_base r s k : Api.get (Api.base r s) k = None.
Proof. reflexivity. Qed.

(** What the callback does to [apis]. *)
Lemma register_inv apis row apis' :
  Api.register apis row = Ok apis' ->
  exists a',
    (forall r, Api.get apis' r
               = if decide (r = row !! 0) then Some a' else Api.get apis r)
    /\ match row !! 2, row !! 1 with
       | Some _, _ =>
           exists a b,
             Api.get apis (row !! 0) = Some a
             /\ Api.get a (row !! 1) = Some b
             /\ a' = Api.set a (row !! 1)
                       (Api.set b (row !! 2)
                          (Api.grandchild (row !! 0) (row !! 1) (row !! 2)
                             (row !! 3)))
       | None, Some _ =>
           a' = Api.set
                  (default (Api.base (row !! 0) (row !! 3))
                     (Api.get apis (row !! 0)))
                  (row !! 1)
                  (Api.parent (row !! 0) (row !! 1) (row !! 3))
       | None, None =>
           a' = Api.top
                  (default (Api.base (row !! 0) (row !! 3))
                     (Api.get apis (row !! 0)))
                  (row !! 0) (row !! 3)
       end.
Proof.
  unfold Api.register.
  destruct (Api.get apis (row !! 0)) as [a|] eqn:Ha.
  - rewrite Ha. cbn [default].
    destruct (row !! 2) as [g|] eqn:Hg.
    + destruct (Api.get a (row !! 1)) as [b|] eqn:Hb; [|discriminate].
      intros [= <-]. eexists. split.
      * intros r. rewrite apis_get_set. reflexivity.
      * exists a, b. repeat split; assumption.
    + destruct (row !! 1) as [p|] eqn:Hp; intros [= <-]; eexists; split;
        try reflexivity; intros r; rewrite apis_get_set; reflexivity.
  - rewrite apis_get_set. rewrite decide_True by reflexivity. cbn [default].
    destruct (row !! 2) as [g|] eqn:Hg.
    + rewrite apis_get_set_method_base. discriminate.
    + destruct (row !! 1) as [p|] eqn:Hp; intros [= <-]; eexists; split;
        try reflexivity; intros r; rewrite !apis_get_set;
        destruct (decide (r = row !! 0)); reflexivity.
Qed.

(** Which rows decide on what. *)
Lemma other_resource x r :
  x !! 0 <> r ->
  Api.resource_is r x = false /\ Api.is_top_row r x = false
  /\ (forall p, Api.is_parent_row r p x = false)
  /\ (forall p g, Api.relevant r p g x = false).
Proof.
  intros H. unfold Api.relevant, Api.is_parent_row, Api.is_grandchild_row,
    Api.is_top_row, Api.resource_is.
  rewrite bool_decide_eq_false_2 by assumption. repeat split.
Qed.

Lemma short_row (x : list Api.resource) : x !! 1 = None -> x !! 2 = None.
Proof. destruct x as [|? [|? ?]]; [reflexivity..|discriminate]. Qed.

Lemma not_parent_row x r p :
  x !! 1 = None \/ is_Some (x !! 2) \/ x !! 1 <> p ->
  Api.is_parent_row r p x = false.
Proof.
  unfold Api.is_parent_row. intros [H|[H|H]].
  - destruct (decide (p = None)) as [->|Hp].
    + rewrite (bool_decide_eq_false_2 (is_Some None)) by (intros [? ?]; discriminate).
      now rewrite andb_false_r.
    + rewrite (bool_decide_eq_false_2 (x !! 1 = p)) by congruence.
      now rewrite andb_false_r.
  - rewrite (bool_decide_eq_false_2 (x !! 2 = None)).
    + apply andb_false_r.
    + destruct H as [g Hg]. congruence.
  - rewrite (bool_decide_eq_false_2 (x !! 1 = p)) by assumption.
    now rewrite andb_false_r.
Qed.

Lemma not_grandchild_row x r p g :
  x !! 2 = None \/ x !! 1 <> p \/ x !! 2 <> g ->
  Api.is_grandchild_row r p g x = false.
Proof.
  unfold Api.is_grandchild_row. intros [H|[H|H]].
  - destruct (decide (g = None)) as [->|Hg].
    + rewrite (bool_decide_eq_false_2 (is_Some None)) by (intros [? ?]; discriminate).
      now rewrite andb_false_r.
    + rewrite (bool_decide_eq_false_2 (x !! 2 = g)) by congruence.
      now rewrite andb_false_r.
  - rewrite (bool_decide_eq_false_2 (x !! 1 = p)) by assumption.
    now rewrite andb_false_r.
  - rewrite (bool_decide_eq_false_2 (x !! 2 = g)) by assumption.
    now rewrite andb_false_r.
Qed.

Lemma ok3_transfer table x r p b :
  (forall g, Api.relevant r p g x = false) ->
  Api.ok3 table r p b -> Api.ok3 (table ++ [x]) r p b.
Proof.
  intros H Hok g. specialize (Hok g). unfold Api.expected3 in *.
  rewrite filter_snoc_false by apply H. exact Hok.
Qed.

Lemma ok2_transfer table x r a :
  (forall p, Api.is_parent_row r p x = false) ->
  (forall p g, Api.relevant r p g x = false) ->
  Api.ok2 table r a -> Api.ok2 (table ++ [x]) r a.
Proof.
  intros H2 H3 Hok p. specialize (Hok p). unfold Api.expected2 in *.
  rewrite filter_snoc_false by apply H2.
  destruct (Api.get a p) as [b|].
  - destruct Hok as (Hm & Hne & Hb). repeat split; try assumption.
    apply ok3_transfer; [apply H3 | exact Hb].
  - intros g. rewrite filter_snoc_false by apply H3. apply Hok.
Qed.

Lemma ok2_base table r s :
  List.filter (Api.resource_is r) table = [] ->
  Api.ok2 table r (Api.base r s).
Proof.
  intros H p. cbn. intros g.
  apply (filter_nil_impl (Api.resource_is r)); [|exact H].
  intros x Hx. unfold Api.relevant, Api.is_parent_row, Api.is_grandchild_row,
    Api.resource_is in *.
  apply orb_prop in Hx as [Hx|Hx];
    now repeat (apply andb_prop in Hx as [Hx _]).
Qed.

Lemma ok2_ext table r a a' :
  (forall p, Api.get a' p = Api.get a p) ->
  Api.ok2 table r a -> Api.ok2 table r a'.
Proof. intros H Hok p. rewrite H. apply Hok. Qed.

(** The object that the callback finds or creates for the resource of a
    row. *)
Lemma found_or_created table apis x :
  Api.ok1 table apis ->
  exists first,
    head (List.filter (Api.resource_is (x !! 0)) (table ++ [x])) = Some first
    /\ (forall m,
          Api.methods_of
            (default (Api.base (x !! 0) (x !! 3)) (Api.get apis (x !! 0))) m
          = Api.methods_of
              match last (List.filter (Api.is_top_row (x !! 0)) table) with
              | Some row =>
                  Api.top (Api.base (x !! 0) (first !! 3)) (x !! 0) (row !! 3)
              | None => Api.base (x !! 0) (first !! 3)
              end m)
    /\ Api.ok2 table (x !! 0)
         (default (Api.base (x !! 0) (x !! 3)) (Api.get apis (x !! 0))).
Proof.
  intros Hok. specialize (Hok (x !! 0)).
  assert (Hx : Api.resource_is (x !! 0) x = true)
    by (unfold Api.resource_is; now rewrite bool_decide_eq_true_2).
  rewrite filter_snoc_true, head_snoc by exact Hx.
  destruct (Api.get apis (x !! 0)) as [a|]; cbn [default].
  - destruct Hok as (Hm & Hne & H2).
    destruct (List.filter (Api.resource_is (x !! 0)) table) as [|first rest] eqn:E;
      [contradiction|].
    exists first. split; [reflexivity|]. split; [|exact H2].
    intros m. rewrite Hm. unfold Api.expected1. now rewrite E.
  - exists x. rewrite Hok. split; [reflexivity|]. split.
    + intros m.
      rewrite (filter_nil_impl (Api.resource_is (x !! 0)) (Api.is_top_row (x !! 0)));
        [reflexivity | | exact Hok].
      intros y Hy. unfold Api.is_top_row, Api.resource_is in *.
      now apply andb_prop in Hy as [Hy _].
    + now apply ok2_base.
Qed.

Lemma register_ok1 table apis x apis' :
  Api.ok1 table apis ->
  Api.register apis x = Ok apis' ->
  Api.ok1 (table ++ [x]) apis'.
Proof.
  intros Hok Hreg. destruct (register_inv _ _ _ Hreg) as (a' & Hget & Hshape).
  intros r. rewrite Hget. destruct (decide (r = x !! 0)) as [->|Hr].
  2: { destruct (other_resource x r) as (H1 & H2 & H3 & H4); [congruence|].
       specialize (Hok r). unfold Api.expected1 in *.
       rewrite !filter_snoc_false by assumption.
       destruct (Api.get apis r) as [a|]; [|exact Hok].
       destruct Hok as (Hm & Hne & Ha). repeat split; try assumption.
       now apply ok2_transfer. }
  destruct (found_or_created table apis x Hok) as (first & Hfirst & Hm & H2).
  assert (Hx : Api.resource_is (x !! 0) x = true)
    by (unfold Api.resource_is; now rewrite bool_decide_eq_true_2).
  assert (Hne : List.filter (Api.resource_is (x !! 0)) (table ++ [x]) <> []).
  { rewrite filter_snoc_true by exact Hx. apply snoc_not_nil. }
  unfold Api.expected1. rewrite Hfirst.
  destruct (x !! 2) as [g0|] eqn:Hg.
  - (* a grandchild *)
    destruct Hshape as (a & b & Ha & Hb & ->).
    rewrite Ha in Hm, H2. cbn [default from_option id] in Hm, H2.
    assert (Htop : Api.is_top_row (x !! 0) x = false).
    { unfold Api.is_top_row.
      rewrite (bool_decide_eq_false_2 (x !! 1 = None)); [apply andb_false_r|].
      intros H1. apply short_row in H1. congruence. }
    rewrite filter_snoc_false by exact Htop.
    split; [|split; [exact Hne|]].
    + intros m. rewrite apis_methods_set. apply Hm.
    + intros p. rewrite apis_get_set.
      destruct (decide (p = x !! 1)) as [->|Hp].
      * specialize (H2 (x !! 1)). rewrite Hb in H2.
        destruct H2 as (Hbm & Hbne & Hb3).
        assert (Hnp : Api.is_parent_row (x !! 0) (x !! 1) x = false).
        { apply not_parent_row. right. left. rewrite Hg. eauto. }
        unfold Api.expected2 in *. rewrite filter_snoc_false by exact Hnp.
        split; [|split; [exact Hbne|]].
        -- intros m. rewrite apis_methods_set. apply Hbm.
        -- intros g. rewrite apis_get_set.
           destruct (decide (g = Some g0)) as [->|Hg0].
           ++ exists x.
              assert (Hgc : Api.is_grandchild_row (x !! 0) (x !! 1) (Some g0) x = true).
              { unfold Api.is_grandchild_row. rewrite Hg.
                rewrite !bool_decide_eq_true_2 by eauto. reflexivity. }
              split; [|split; [exact Hgc | intros m; reflexivity]].
              unfold Api.relevant. rewrite filter_snoc_true.
              ** apply last_snoc.
              ** rewrite Hgc. apply orb_true_r.
           ++ specialize (Hb3 g). unfold Api.expected3 in *.
              assert (Hrel : Api.relevant (x !! 0) (x !! 1) g x = false).
              { unfold Api.relevant. rewrite Hnp. cbn [orb].
                apply not_grandchild_row. right. right. congruence. }
              rewrite filter_snoc_false by exact Hrel. exact Hb3.
      * specialize (H2 p).
        assert (Hnp : Api.is_parent_row (x !! 0) p x = false).
        { apply not_parent_row. right. left. rewrite Hg. eauto. }
        assert (Hrel : forall g, Api.relevant (x !! 0) p g x = false).
        { intros g. unfold Api.relevant. rewrite Hnp. cbn [orb].
          apply not_grandchild_row. right. left. congruence. }
        unfold Api.expected2 in *. rewrite filter_snoc_false by exact Hnp.
        destruct (Api.get a p) as [b'|].
        -- destruct H2 as (Hbm & Hbne & Hb3). repeat split; try assumption.
           now apply ok3_transfer.
        -- intros g. rewrite filter_snoc_false by apply Hrel. apply H2.
  - destruct (x !! 1) as [p0|] eqn:Hp.
    + (* a parent *)
      subst a'.
      assert (Htop : Api.is_top_row (x !! 0) x = false).
      { unfold Api.is_top_row. rewrite Hp.
        rewrite (bool_decide_eq_false_2 (Some p0 = None)) by discriminate.
        apply andb_false_r. }
      rewrite filter_snoc_false by exact Htop.
      split; [|split; [exact Hne|]].
      * intros m. rewrite apis_methods_set. apply Hm.
      * intros p. rewrite apis_get_set.
        destruct (decide (p = Some p0)) as [->|Hp0].
        -- assert (Hpar : Api.is_parent_row (x !! 0) (Some p0) x = true).
           { unfold Api.is_parent_row. rewrite Hp, Hg.
             rewrite !bool_decide_eq_true_2 by eauto. reflexivity. }
           unfold Api.expected2. rewrite filter_snoc_true, last_snoc by exact Hpar.
           split; [reflexivity|]. split.
           ++ apply snoc_not_nil.
           ++ intros g. cbn. intros m. unfold Api.expected3, Api.relevant.
              rewrite filter_snoc_true, last_snoc by now rewrite Hpar.
              rewrite (not_grandchild_row x); [reflexivity | now left].
        -- specialize (H2 p).
           assert (Hnp : Api.is_parent_row (x !! 0) p x = false).
           { apply not_parent_row. right. right. congruence. }
           assert (Hrel : forall g, Api.relevant (x !! 0) p g x = false).
           { intros g. unfold Api.relevant. rewrite Hnp. cbn [orb].
             apply not_grandchild_row. now left. }
           unfold Api.expected2 in *. rewrite filter_snoc_false by exact Hnp.
           destruct (Api.get _ p) as [b'|].
           ++ destruct H2 as (Hbm & Hbne & Hb3). repeat split; try assumption.
              now apply ok3_transfer.
           ++ intros g. rewrite filter_snoc_false by apply Hrel. apply H2.
    + (* the resource alone *)
      subst a'.
      assert (Htop : Api.is_top_row (x !! 0) x = true).
      { unfold Api.is_top_row. rewrite Hp.
        now rewrite !bool_decide_eq_true_2. }
      rewrite filter_snoc_true, last_snoc by exact Htop.
      split; [|split; [exact Hne|]].
      * intros m. specialize (Hm m).
        destruct (last (List.filter (Api.is_top_row (x !! 0)) table)) as [row|].
        -- destruct (apis_methods_top _ _ (x !! 0) (x !! 3) (x !! 3) m Hm) as [-> _].
           now destruct (apis_methods_top (Api.base (x !! 0) (first !! 3))
                           (Api.base (x !! 0) (first !! 3))
                           (x !! 0) (x !! 3) (row !! 3) m eq_refl) as [_ ->].
        -- now destruct (apis_methods_top _ _ (x !! 0) (x !! 3) (x !! 3) m Hm) as [-> _].
      * apply (ok2_ext _ _ (default (Api.base (x !! 0) (x !! 3))
                              (Api.get apis (x !! 0)))).
        -- intros p. apply apis_get_top.
        -- apply ok2_transfer; [| |exact H2].
           ++ intros p. apply not_parent_row. now left.
           ++ intros p g. unfold Api.relevant.
              rewrite (not_parent_row x) by now left.
              apply not_grandchild_row. now left.
Qed.

Lemma names_are_plain :
  NoDup (map Api.name Api.all_resources)
  /\ (forall r, r ∈ Api.all_resources)
  /\ Forall (fun n => n ∉ Api.method_names ++ Api.inherited_names)
       (map Api.name Api.all_resources).
Proof.
  split; [|split].
  - apply (bool_decide_unpack _). vm_compute. exact I.
  - intros r. destruct r; apply (bool_decide_unpack _); vm_compute; exact I.
  - apply (bool_decide_unpack _). vm_compute. exact I.
Qed.

Lemma apis_build_snoc table x :
  Api.build (table ++ [x]) = let* apis := Api.build table in Api.register apis x.
Proof. apply reduce_snoc. Qed.

Lemma build_ok1 table apis : Api.build table = Ok apis -> Api.ok1 table apis.
Proof.
  revert apis. induction table as [|x table IH] using rev_ind; intros apis.
  - intros [= <-]. intros r. reflexivity.
  - rewrite apis_build_snoc.
    destruct (Api.build table) as [apis0|e]; cbn [bind]; [|discriminate].
    apply register_ok1. now apply IH.
Qed.

Lemma parent_of_relevant r p g table :
  List.filter (Api.relevant r p g) table = [] ->
  List.filter (Api.is_parent_row r p) table = [].
Proof.
  apply filter_nil_impl. intros x Hx. unfold Api.relevant. now rewrite Hx.
Qed.

Lemma relevant_of_resource r p g table :
  List.filter (Api.resource_is r) table = [] ->
  List.filter (Api.relevant r p g) table = [].
Proof.
  apply filter_nil_impl. intros x Hx.
  unfold Api.relevant, Api.is_parent_row, Api.is_grandchild_row,
    Api.resource_is in *.
  apply orb_prop in Hx as [Hx|Hx];
    now repeat (apply andb_prop in Hx as [Hx _]).
Qed.

(** X10: the methods of [apis[r]] are those of the object literal, with
    the options of the first row that names [r], and, when a row names
    [r] alone, the methods of the third branch with the options of the
    last such row; there is no [apis[r]] when no row names [r]. *)
Theorem apis_resource_methods table apis r m :
  Api.build table = Ok apis ->
  Api.route1 apis r m = Api.expected1 table r m.
Proof.
  intros H. pose proof (build_ok1 table apis H r) as Hr.
  unfold Api.route1. destruct (Api.get apis r) as [a|]; cbn.
  - now destruct Hr as (Hm & _).
  - unfold Api.expected1. now rewrite Hr.
Qed.

(** X11: [apis[r][p]] is there exactly when a row registers [p] under
    [r]; its methods are those of the second branch, with the options of
    the last such row. *)
Theorem apis_parent_methods table apis r p m :
  Api.build table = Ok apis ->
  Api.route2 apis r p m = Api.expected2 table r p m.
Proof.
  intros H. pose proof (build_ok1 table apis H r) as Hr.
  unfold Api.route2. destruct (Api.get apis r) as [a|]; cbn.
  - destruct Hr as (_ & _ & H2). specialize (H2 p).
    destruct (Api.get a p) as [b|]; cbn.
    + now destruct H2 as (Hm & _).
    + unfold Api.expected2.
      now rewrite (parent_of_relevant r p None table (H2 None)).
  - unfold Api.expected2.
    now rewrite (parent_of_relevant r p None table
                   (relevant_of_resource r p None table Hr)).
Qed.

(** X12: [apis[r][p][g]] is decided by the last row that is either for [p]
    under [r] or for [g] under [p] under [r]: a row for [g] leaves the
    one method [detail], with the names and the options of this row; a
    row for [p] leaves nothing, since it assigns a new object to
    [apis[r][p]] and so removes what earlier rows had registered under
    it. *)
Theorem apis_grandchild_methods table apis r p g m :
  Api.build table = Ok apis ->
  Api.route3 apis r p g m = Api.expected3 table r p g m.
Proof.
  intros H. pose proof (build_ok1 table apis H r) as Hr.
  unfold Api.route3. destruct (Api.get apis r) as [a|]; cbn.
  - destruct Hr as (_ & _ & H2). specialize (H2 p).
    destruct (Api.get a p) as [b|]; cbn.
    + destruct H2 as (_ & _ & H3). specialize (H3 g).
      destruct (Api.get b g) as [c|]; cbn.
      * destruct H3 as (row & Hl & Hgc & Hm).
        unfold Api.expected3. now rewrite Hl, Hgc.
      * symmetry. apply H3.
    + unfold Api.expected3. now rewrite (H2 g).
  - unfold Api.expected3. now rewrite (relevant_of_resource r p g table Hr).
Qed.

Lemma apis_resource_methods_witness :
  Api.route1 Api.apis (Some Api.COLUMNS) Api.create = None
  /\ Api.route1 Api.apis (Some Api.COLUMNS) Api.detail
     = Some (Api.BaseDetail (Some Api.COLUMNS) None)
  /\ Api.route1 Api.apis (Some Api.BLOCKS) Api.create
     = Some (Api.Create (Some Api.BLOCKS)).
Proof.
  split; [|split].
  - exact (apis_resource_methods Api.RESOURCES Api.apis
             (Some Api.COLUMNS) Api.create eq_refl).
  - exact (apis_resource_methods Api.RESOURCES Api.apis
             (Some Api.COLUMNS) Api.detail eq_refl).
  - exact (apis_resource_methods Api.RESOURCES Api.apis
             (Some Api.BLOCKS) Api.create eq_refl).
Defined.

Lemma apis_parent_methods_witness :
  Api.route2 Api.apis (Some Api.VARIABLES) (Some Api.PIPELINES) Api.useDelete
  = Some (Api.ParentUseDelete (Some Api.VARIABLES) (Some Api.PIPELINES))
  /\ Api.route2 Api.apis (Some Api.PIPELINES) (Some Api.VARIABLES) Api.useDelete
     = None.
Proof.
  split.
  - exact (apis_parent_methods Api.RESOURCES Api.apis
             (Some Api.VARIABLES) (Some Api.PIPELINES) Api.useDelete eq_refl).
  - exact (apis_parent_methods Api.RESOURCES Api.apis
             (Some Api.PIPELINES) (Some Api.VARIABLES) Api.useDelete eq_refl).
Defined.

Lemma apis_grandchild_methods_witness :
  Api.route3 Api.apis (Some Api.BLOCKS) (Some Api.PIPELINES)
    (Some Api.OUTPUTS) Api.detail
  = Some (Api.GrandchildDetail (Some Api.BLOCKS) (Some Api.PIPELINES)
            (Some Api.OUTPUTS) None).
Proof.
  exact (apis_grandchild_methods Api.RESOURCES Api.apis
           (Some Api.BLOCKS) (Some Api.PIPELINES) (Some Api.OUTPUTS)
           Api.detail eq_refl).
Defined.

(** ** When the loop returns *)

Lemma register_returns table apis x :
  Api.ok1 table apis ->
  (exists apis', Api.register apis x = Ok apis')
  <-> (is_Some (x !! 2) ->
       List.filter (Api.is_parent_row (x !! 0) (x !! 1)) table <> []).
Proof.
  intros Hok. specialize (Hok (x !! 0)). unfold Api.register.
  destruct (Api.get apis (x !! 0)) as [a|] eqn:Ha.
  - rewrite Ha. destruct Hok as (_ & _ & H2). specialize (H2 (x !! 1)).
    destruct (x !! 2) as [g|] eqn:Hg.
    + destruct (Api.get a (x !! 1)) as [b|].
      * destruct H2 as (_ & Hne & _). split; [intros _ _; exact Hne | eauto].
      * split.
        -- intros [? ?]. discriminate.
        -- intros H. exfalso. apply H; [eauto|].
           apply (parent_of_relevant _ _ None). apply H2.
    + split; [intros _ [? ?]; discriminate|]. intros _.
      destruct (x !! 1); eauto.
  - rewrite apis_get_set, decide_True by reflexivity.
    destruct (x !! 2) as [g|] eqn:Hg.
    + cbn. split.
      * intros [? ?]. discriminate.
      * intros H. exfalso. apply H; [eauto|].
        apply (parent_of_relevant _ _ None), relevant_of_resource, Hok.
    + split; [intros _ [? ?]; discriminate|]. intros _.
      destruct (x !! 1); eauto.
Qed.

Lemma ordered_snoc table x :
  Api.ordered (table ++ [x])
  <-> Api.ordered table
      /\ (is_Some (x !! 2) ->
          List.filter (Api.is_parent_row (x !! 0) (x !! 1)) table <> []).
Proof.
  split.
  - intros H. split.
    + intros pre row post -> Hg.
      apply (H pre row (post ++ [x])); [|exact Hg].
      now rewrite <- app_assoc.
    + intros Hg. apply filter_not_nil.
      destruct (H table x [] eq_refl Hg) as (row' & Hin & Hp). eauto.
  - intros [H Hx] pre row post E Hg.
    destruct post as [|y post _] using rev_ind.
    + apply app_inj_tail in E as [-> ->].
      apply filter_not_nil in Hx; [|exact Hg].
      destruct Hx as (row' & Hin & Hp). eauto.
    + change (pre ++ row :: post ++ [y]) with (pre ++ (row :: post) ++ [y]) in E.
      rewrite app_assoc in E. apply app_inj_tail in E as [-> ->].
      now apply (H pre row post).
Qed.

(** X13: the loop over a table returns exactly when every row with a
    grandchild comes after a row that registers its parent under its
    resource; otherwise it raises a [TypeError] on the assignment to
    [apis[resource][parentResource][grandchildResource]].  [RESOURCES]
    is so ordered. *)
Theorem apis_build_returns (table : list (list Api.resource)) :
  ((exists apis, Api.build table = Ok apis) <-> Api.ordered table)
  /\ (forall e, Api.build table = Throw e -> e = TypeError)
  /\ Api.build Api.RESOURCES = Ok Api.apis.
Proof.
  split; [|split; [|reflexivity]].
  - induction table as [|x table IH] using rev_ind.
    + split; [|now exists Api.empty].
      intros _ pre row post E. now destruct pre.
    + rewrite apis_build_snoc, ordered_snoc, <- IH.
      destruct (Api.build table) as [apis|e] eqn:Hb; cbn [bind].
      * rewrite (register_returns table apis x (build_ok1 _ _ Hb)).
        split; [intros H; split; [eauto | exact H] | now intros [_ H]].
      * split; [intros [? ?]; discriminate | intros [[? ?] _]; discriminate].
  - induction table as [|x table IH] using rev_ind; [discriminate|].
    intros e. rewrite apis_build_snoc.
    destruct (Api.build table) as [apis|e'] eqn:Hb; cbn [bind].
    + unfold Api.register.
      repeat match goal with
             | |- context [match ?c with _ => _ end] => destruct c
             end; congruence.
    + intros [= <-]. now apply IH.
Qed.

(** ** What is shown below the output *)

(** X14: unless the status of the block is [executed], the component
    shows the information on the run only when the run is not in
    progress; the time that it then shows is never negative, and when it
    shows no time the run count is zero, there is at least one message,
    and the tooltip says whether the block was executed with errors. *)
Theorem extra_info_shown props hasError info :
  ExtraInfo props hasError = Some info ->
  status props <> EXECUTED ->
  isInProgress props = false
  /\ match elapsed info with
     | Some d => (0 <= d)%Z /\ (1 <= runCount props)%Z
     | None =>
         runCount props = 0%Z
         /\ 1 <= length (messages props)
         /\ label info
            = if hasError then ExecutedWithErrors else ExecutedSuccessfully
     end.
Proof.
  unfold ExtraInfo, executedAndIdle. intros H Hst.
  rewrite bool_decide_eq_false_2 in H by congruence. cbn [orb] in H.
  destruct (isInProgress props); [discriminate|]. cbn [negb andb] in H.
  split; [reflexivity|].
  destruct (runCount props =? 0)%Z eqn:H0;
    destruct (1 <=? runCount props)%Z eqn:H1;
    destruct (1 <=? length (messages props)) eqn:Hn;
    destruct (runStartTime props <=? runEndTime props)%Z eqn:Ht;
    cbn [andb orb] in H; try discriminate;
    injection H as <-; cbn [elapsed label];
    try apply Z.eqb_eq in H0; try apply Z.leb_le in H1;
    try apply Z.leb_le in Ht; try apply Nat.leb_le in Hn;
    try apply Z.leb_gt in H1; try lia.
  all: repeat split; try lia; try assumption; reflexivity.
Qed.

Lemma extra_info_shown_witness :
  isInProgress (props_of [text_message "a"]) = false
  /\ (0 <= 2 - 1)%Z /\ (1 <= runCount (props_of [text_message "a"]))%Z.
Proof.
  apply (extra_info_shown (props_of [text_message "a"]) true
           {| label := LastRunAt 1; elapsed := Some (2 - 1)%Z;
              status_mark := DangerCircle |}).
  - reflexivity.
  - discriminate.
Defined.

(** ** Runs of plain entries *)

Lemma mapi_from_exists {A B C} (f : A -> nat -> result B) (g : B -> C)
    (h : nat -> A -> C) :
  forall l i,
    Forall (fun x => forall j, exists y, f x j = Ok y /\ g y = h j x) l ->
    exists ys, mapi_from f i l = Ok ys
               /\ map g ys = imap (fun j => h (i + j)) l.
Proof.
  induction l as [|x l IH]; intros i Hall.
  - exists []. split; reflexivity.
  - apply Forall_cons in Hall as [Hx Hl].
    destruct (Hx i) as (y & Hy & Hg).
    destruct (IH (S i) Hl) as (ys & Hys & Hmap).
    exists (y :: ys). cbn [mapi_from]. rewrite Hy. cbn [bind].
    rewrite Hys. cbn [bind]. split; [reflexivity|].
    cbn [map imap]. rewrite Hg, Hmap, Nat.add_0_r. f_equal.
    apply imap_ext. intros j a _. cbn. f_equal. lia.
Qed.

Lemma renderEntry_plain n e idx :
  type e <> TABLE ->
  Forall (fun d => includes internal_output d = false) (fragments e) ->
  exists c,
    renderEntry n e idx = Ok c
    /\ entry_instructions c = imap (plain_instruction n e idx) (fragments e).
Proof.
  intros Ht Hall. rewrite renderEntry_fragments.
  destruct (no_data (data e)) eqn:Hno.
  - exists None. split; [reflexivity|].
    now rewrite (no_data_fragments e Hno).
  - unfold mapi.
    rewrite (mapi_from_ok _
               (fun i d => {| key := (idx, i);
                              displayElement := Some (plain_instruction n e idx i d) |})).
    + cbn [bind Nat.add]. eexists. split; [reflexivity|].
      cbn [entry_instructions]. apply instructions_imap.
      intros j x. unfold instruction_of, plain_instruction. cbn [displayElement].
      now destruct (textlike e).
    + eapply Forall_impl; [exact Hall|].
      intros d Hd j. cbn beta. now rewrite renderData_plain.
Qed.

(** X15: a run with at least one message whose entries are neither tables
    nor hold the marker is rendered without an error, and its
    instructions are those of its entries, in order, one for each
    non-empty fragment: an ANSI text for a text-like entry, an image
    otherwise. *)
Theorem plain_run props out :
  messages props <> [] ->
  combinedMessages (messages props) = Ok out ->
  Forall (fun e => type e <> TABLE
                   /\ Forall (fun d => includes internal_output d = false)
                        (fragments e)) out ->
  exists r,
    CodeOutput props = Ok r
    /\ instructions r
       = concat (imap (fun idx e =>
                         imap (plain_instruction (length (messages props)) e idx)
                           (fragments e)) out).
Proof.
  intros Hne Hout Hall. unfold CodeOutput.
  destruct (messages props) as [|m ms] eqn:Hms; [contradiction|].
  cbn [bind]. rewrite Hout. cbn [bind]. unfold mapi.
  destruct (mapi_from_exists
              (renderEntry (length (m :: ms))) entry_instructions
              (fun idx e => imap (plain_instruction (length (m :: ms)) e idx)
                              (fragments e)) out 0)
    as (cs & Hcs & Hmap).
  { eapply Forall_impl; [exact Hall|].
    intros e [Ht Hfr] j. now apply renderEntry_plain. }
  rewrite Hcs. cbn [bind]. eexists. split; [reflexivity|].
  unfold instructions. cbn [children]. now rewrite Hmap.
Qed.

Lemma plain_run_witness :
  exists r,
    CodeOutput
      (props_of [text_message "a"; text_message "b";
                 message IMAGE_PNG (Some (PArray ["QUJD"; ""; "QUJE"]))])
    = Ok r
    /\ instructions r
       = [OutputRowStyle true false "ab"; ImagePng 1 "QUJD"; ImagePng 1 "QUJE"].
Proof.
  apply (plain_run
           (props_of [text_message "a"; text_message "b";
                      message IMAGE_PNG (Some (PArray ["QUJD"; ""; "QUJE"]))])
           [text_message "ab";
            message IMAGE_PNG (Some (PArray ["QUJD"; ""; "QUJE"]))]).
  - discriminate.
  - reflexivity.
  - repeat (apply List.Forall_cons); try apply List.Forall_nil;
      (split; [discriminate|]);
      repeat (apply List.Forall_cons); try apply List.Forall_nil; reflexivity.
Defined.

(** ** The flag of the first fragment *)

(** X16: the flag [first] is only ever set on the first [div] of the first
    entry, for its first non-empty fragment. *)
Theorem first_is_first props r is_first is_last text :
  CodeOutput props = Ok r ->
  OutputRowStyle is_first is_last text ∈ instructions r ->
  is_first = true ->
  exists divs d,
    children r !! 0 = Some (Some divs)
    /\ head divs = Some d
    /\ displayElement d = Some (OutputRowStyle is_first is_last text).
Proof.
  intros Hr Hin Hfirst.
  destruct (elem_of_instructions r _ Hin) as (d & Hd & Hde).
  destruct (elem_of_divs_of r d Hd) as (idx & divs & j & Hidx & Hj).
  destruct (div_origin props r idx divs j d Hr Hidx Hj)
    as (out & entry & frag & Hout & Hentry & Hfrag & Hrd).
  destruct (renderData_flags _ _ _ _ _ _ _ _ _ _ Hrd Hde) as (Hf & _ & _).
  rewrite Hfirst in Hf. symmetry in Hf.
  apply andb_prop in Hf as [H1 H2].
  apply Nat.eqb_eq in H1. apply Nat.eqb_eq in H2. subst idx j.
  exists divs, d. repeat split; try assumption.
  now destruct divs.
Qed.

Lemma first_is_first_witness :
  exists divs d,
    [Some [{| key := (0, 0);
              displayElement := Some (OutputRowStyle true false "Hello World") |}]]
    !! 0 = Some (Some divs)
    /\ head divs = Some d
    /\ displayElement d = Some (OutputRowStyle true false "Hello World").
Proof.
  apply (first_is_first
           (props_of [text_message "Hello "; text_message "World"])
           {| children :=
                [Some [{| key := (0, 0);
                          displayElement :=
                            Some (OutputRowStyle true false "Hello World") |}]];
              extraInfo := true |}).
  - reflexivity.
  - apply list_elem_of_In. left. reflexivity.
  - reflexivity.
Defined.

(** ** Runs in the order of receipt *)

Lemma prefix_split n s :
  String.prefix n s = true -> exists after, s = n +:+ after.
Proof.
  revert s. induction n as [|x n IH]; intros s H.
  - now exists s.
  - destruct s as [|y s]; [discriminate|].
    cbn [String.prefix] in H.
    destruct (ascii_dec x y) as [->|]; [|discriminate].
    destruct (IH s H) as [after ->]. now exists after.
Qed.

Lemma prefix_app n after : String.prefix n (n +:+ after) = true.
Proof.
  induction n as [|x n IH]; [apply prefix_nil|].
  rewrite app_cons. cbn [String.prefix].
  destruct (ascii_dec x x); [exact IH | congruence].
Qed.

Lemma includes_prefix n s : String.prefix n s = true -> includes n s = true.
Proof. destruct s; cbn [includes]; now intros ->. Qed.

Lemma includes_marked s : includes internal_output s = true <-> marked s.
Proof.
  split.
  - induction s as [|c s IH]; cbn [includes]; intros H.
    + rewrite orb_false_r in H. discriminate.
    + apply orb_true_iff in H as [H|H].
      * destruct (prefix_split _ _ H) as [after Ha].
        exists EmptyString, after. exact Ha.
      * destruct (IH H) as (before & after & ->).
        now exists (String c before), after.
  - intros (before & after & ->).
    apply includes_app_r, includes_prefix.
    apply (prefix_app internal_output).
Qed.

Lemma textlike_is_text m : textlike m = true <-> is_text m.
Proof.
  unfold textlike, is_text, textlike_includes, DATA_TYPE_TEXTLIKE.
  rewrite bool_decide_eq_true, !elem_of_cons, elem_of_nil.
  intuition congruence.
Qed.

Lemma text_of_payload p : text_of (Some p) = payload_text p.
Proof. now destruct p. Qed.

Lemma combineTextData_payload p :
  combineTextData (Some p) = Some (PString (payload_text p)).
Proof. now destruct p. Qed.

Lemma plus_string_payload p s : plus_string (Some p) s = payload_string p +:+ s.
Proof. now destruct p. Qed.

Lemma tagged_marked m p :
  data m = Some p -> (tagged m = true <-> marked (payload_text p)).
Proof.
  intros H. unfold tagged. rewrite H, text_of_payload. apply includes_marked.
Qed.

Lemma run_text_snoc rest m p :
  data m = Some p -> run_text (rest ++ [m]) = run_text rest +:+ payload_text p.
Proof.
  intros H. induction rest as [|x rest IH]; cbn [app run_text].
  - now rewrite H, string_app_nil_r.
  - rewrite IH. destruct (data x); [|reflexivity].
    symmetry. apply string_app_assoc.
Qed.

Lemma stands_for_first m :
  (is_text m -> data m <> None) -> stands_for [m] (first_entry m).
Proof.
  intros Hp. unfold first_entry.
  destruct (textlike m) eqn:Ht; cbn [andb].
  - apply textlike_is_text in Ht.
    destruct (data m) as [p|] eqn:Hd; [|now destruct (Hp Ht)].
    destruct (tagged m) eqn:Hg; cbn [negb].
    + apply kept. intros _. exists p. split; [assumption|].
      now apply (tagged_marked m).
    + rewrite combineTextData_payload.
      replace (Some (PString (payload_text p)))
        with (Some (PString (payload_text p +:+ run_text [])))
        by (cbn [run_text]; now rewrite string_app_nil_r).
      apply (text_run m p []); try assumption; [|constructor].
      intros Hm. apply (tagged_marked m p Hd) in Hm. congruence.
  - apply kept. intros Hm. apply textlike_is_text in Hm. congruence.
Qed.

Lemma stands_for_snoc g l m p :
  stands_for g l ->
  textlike l = true ->
  type l = type m ->
  data m = Some p ->
  tagged m = false ->
  stands_for (g ++ [m])
    (with_data l (Some (PString (plus_string (data l) (text_of (data m)))))).
Proof.
  intros Hg Hl Ht Hd Hn.
  assert (Hnm : ~ marked (payload_text p)).
  { intros Hm. apply (tagged_marked m p Hd) in Hm. congruence. }
  rewrite Hd, text_of_payload.
  destruct Hg as [m0 Hk | m0 p0 rest H0 Hd0 Hn0 Hrest
                 | m0 p0 m1 rest H0 Hd0 Hm0 Hrest].
  - apply textlike_is_text in Hl.
    destruct (Hk Hl) as (p0 & Hd0 & Hm0).
    rewrite Hd0, plus_string_payload.
    replace (payload_text p) with (run_text [m])
      by (cbn [run_text]; now rewrite Hd, string_app_nil_r).
    apply (marked_run m0 p0 m []); try assumption.
    constructor; [|constructor]. split; [congruence|]. now exists p.
  - cbn [entry_of data plus_string]. rewrite string_app_assoc.
    rewrite <- (run_text_snoc rest m p Hd).
    apply (text_run m0 p0 (rest ++ [m])); try assumption.
    apply Forall_app. split; [assumption|].
    constructor; [|constructor]. split; [now cbn in Ht|]. now exists p.
  - cbn [entry_of data plus_string]. rewrite string_app_assoc.
    rewrite <- (run_text_snoc (m1 :: rest) m p Hd).
    apply (marked_run m0 p0 m1 (rest ++ [m])); try assumption.
    change (m1 :: rest ++ [m]) with ((m1 :: rest) ++ [m]).
    apply Forall_app. split; [assumption|].
    constructor; [|constructor]. split; [now cbn in Ht|]. now exists p.
Qed.

(** X17: when every text message has a payload the aggregation returns,
    and the messages split into consecutive runs, in the order of receipt,
    with one entry for each run and in the same order, so that every
    message is in exactly one run.  The entry has the type and the other
    fields of the first message of its run; a run of one message that is
    no text, or a text with the marker, is kept as it came; the entry of a
    run of texts holds the texts of all its messages, in their order, the
    strings of an array one per line. *)
Theorem runs_in_order (ms : list KernelOutputType) :
  Forall (fun m => is_text m -> data m <> None) ms ->
  exists out groups,
    combinedMessages ms = Ok out
    /\ concat groups = ms
    /\ Forall2 stands_for groups out
    /\ Forall2 (fun g e => type <$> head g = Some (type e)) groups out.
Proof.
  intros Hall.
  assert (Hp : Forall has_payload ms).
  { eapply Forall_impl; [exact Hall|].
    intros m H Ht. apply textlike_is_text in Ht. cbv beta in H.
    destruct (data m); [now eexists | now destruct (H Ht)]. }
  enough (exists out groups,
            combinedMessages ms = Ok out
            /\ concat groups = ms
            /\ Forall2 stands_for groups out) as (out & groups & Ho & Hc & Hs).
  { exists out, groups. repeat split; try assumption.
    clear - Hs. induction Hs as [|g e gs es Hg _ IH]; constructor; [|exact IH].
    destruct Hg; reflexivity. }
  induction ms as [|m ms IH] using rev_ind.
  - exists [], []. repeat split. constructor.
  - apply Forall_app in Hall as [Hms Hm]. apply Forall_inv in Hm.
    apply Forall_app in Hp as [Hpms Hpm]. apply Forall_inv in Hpm.
    destruct (IH Hms Hpms) as (out & groups & Hout & Hcat & Hrep).
    rewrite combinedMessages_snoc, Hout. cbn [bind].
    destruct (merges out m) eqn:Hmerge.
    + assert (Hlast : exists o l, out = o ++ [l]).
      { unfold merges in Hmerge.
        destruct (last out) as [l|] eqn:Hl; [|discriminate].
        apply last_Some in Hl as [o ->]. now exists o, l. }
      destruct Hlast as (o & l & ->).
      apply Forall2_app_inv_r in Hrep as (gs & gl & Hgs & Hgl & ->).
      apply Forall2_cons_inv_r in Hgl as (g & gl' & Hg & Hnil & ->).
      apply Forall2_nil_inv_r in Hnil as ->.
      exists (o ++ [with_data l
                      (Some (PString (plus_string (data l) (text_of (data m)))))]),
             (gs ++ [g ++ [m]]).
      split; [now apply reducer_merge|]. split.
      * rewrite <- Hcat, !concat_app. cbn [concat].
        now rewrite !app_nil_r, app_assoc.
      * apply Forall2_app; [assumption|].
        constructor; [|constructor].
        pose proof Hmerge as Hmg.
        unfold merges in Hmg. rewrite last_snoc in Hmg.
        apply andb_prop in Hmg as [Hmg Hn].
        apply andb_prop in Hmg as [Hl He].
        apply bool_decide_eq_true in He.
        apply negb_true_iff in Hn.
        assert (Ht : textlike m = true)
          by (unfold textlike in *; now rewrite <- He).
        destruct (Hpm Ht) as [p Hd].
        now apply (stands_for_snoc g l m p).
    + exists (out ++ [first_entry m]), (groups ++ [[m]]).
      split; [now apply reducer_push|]. split.
      * rewrite concat_app, Hcat. reflexivity.
      * apply Forall2_app; [assumption|].
        constructor; [now apply stands_for_first | constructor].
Qed.

Lemma runs_in_order_witness :
  exists out groups,
    combinedMessages
      [text_message "a"; message TEXT (Some (PArray ["b"; "c"]));
       message TABLE None; text_message table_in_text; text_message "d"]
    = Ok out
    /\ concat groups
       = [text_message "a"; message TEXT (Some (PArray ["b"; "c"]));
          message TABLE None; text_message table_in_text; text_message "d"]
    /\ Forall2 stands_for groups out
    /\ Forall2 (fun g e => type <$> head g = Some (type e)) groups out.
Proof.
  apply runs_in_order.
  repeat (apply List.Forall_cons); try apply List.Forall_nil;
    first [ intros _; discriminate | intros [H|H]; discriminate H ].
Defined.
